(** * Timeline, animation, queue and keyword extraction of the lyric-video generator

    A shallow embedding of
    - [src/modules/VideoRenderingModule.ts] (classes [VideoRenderingModule]
      and [RenderingQueue]),
    - [src/modules/VisualBackgroundGenerator.ts] ([extractKeywords]),
    - [src/types/index.ts] (the records they exchange),
    followed by the properties established about them.

    Conventions of the embedding.
    - A JavaScript [number] is a value of [JsNumber.number]: NaN, the two
      infinities, or a finite value carried as an exact rational.  Arithmetic
      on finite values is exact (rounding of IEEE doubles is not modelled) and
      the sign of a zero is not kept.
    - Time offsets stored in a transcript are finite, so the records hold
      rationals; the non-finite values appear only inside [buildTimeline].
    - Text is a [string] whose characters are the code units 0..255.
    - A [throw] is the [Throw] completion; a rejected promise carries the same
      completion. *)

From Stdlib Require Import ZArith QArith Qround Qminmax.
From Stdlib Require Import List String Ascii Bool Arith Lia Lqa.
From Stdlib Require Import Permutation Sorted DecimalString.
Import ListNotations.

Set Implicit Arguments.

(* ================================================================== *)
(** ** JavaScript numbers *)

Module JsNumber.

Inductive number : Type :=
| NaN
| NegInfinity
| PosInfinity
| Finite (q : Q).

Definition of_Z (z : Z) : number := Finite (inject_Z z).
Definition of_nat (n : nat) : number := of_Z (Z.of_nat n).

(** [a < b]; every comparison with NaN is false. *)
Definition lt (a b : number) : bool :=
  match a, b with
  | NaN, _ | _, NaN => false
  | _, NegInfinity => false
  | PosInfinity, _ => false
  | NegInfinity, _ => true
  | Finite _, PosInfinity => true
  | Finite x, Finite y => negb (Qle_bool y x)
  end.

(** [a >= b]. *)
Definition ge (a b : number) : bool :=
  match a, b with
  | NaN, _ | _, NaN => false
  | _, NegInfinity => true
  | PosInfinity, _ => true
  | NegInfinity, _ => false
  | Finite _, PosInfinity => false
  | Finite x, Finite y => Qle_bool y x
  end.

(** [a === b] on numbers. *)
Definition strict_eq (a b : number) : bool :=
  match a, b with
  | NegInfinity, NegInfinity => true
  | PosInfinity, PosInfinity => true
  | Finite x, Finite y => Qeq_bool x y
  | _, _ => false
  end.

Definition add (a b : number) : number :=
  match a, b with
  | NaN, _ | _, NaN => NaN
  | PosInfinity, NegInfinity | NegInfinity, PosInfinity => NaN
  | PosInfinity, _ | _, PosInfinity => PosInfinity
  | NegInfinity, _ | _, NegInfinity => NegInfinity
  | Finite x, Finite y => Finite (x + y)
  end.

Definition neg (a : number) : number :=
  match a with
  | NaN => NaN
  | PosInfinity => NegInfinity
  | NegInfinity => PosInfinity
  | Finite x => Finite (- x)
  end.

Definition sub (a b : number) : number := add a (neg b).

(** Sign used by the products and quotients with an infinite operand. *)
Definition scaled (inf : number) (x : Q) : number :=
  if Qeq_bool x 0 then NaN
  else if Qle_bool 0 x then inf else neg inf.

Definition mul (a b : number) : number :=
  match a, b with
  | NaN, _ | _, NaN => NaN
  | Finite x, Finite y => Finite (x * y)
  | Finite x, inf | inf, Finite x => scaled inf x
  | PosInfinity, PosInfinity | NegInfinity, NegInfinity => PosInfinity
  | _, _ => NegInfinity
  end.

(** [a / b].  A finite non-zero value over zero is an infinity whose sign is
    taken from the dividend alone. *)
Definition div (a b : number) : number :=
  match a, b with
  | NaN, _ | _, NaN => NaN
  | Finite x, Finite y =>
      if Qeq_bool y 0 then scaled PosInfinity x else Finite (x / y)
  | Finite _, _ => Finite 0
  | inf, Finite y => if Qle_bool 0 y then inf else neg inf
  | _, _ => NaN
  end.

(** [Math.ceil]. *)
Definition Math_ceil (a : number) : number :=
  match a with
  | Finite x => of_Z (Qceiling x)
  | other => other
  end.

(** [Math.min(a, b)] and [Math.max(a, b)]. *)
Definition Math_min (a b : number) : number :=
  match a, b with
  | NaN, _ | _, NaN => NaN
  | _, _ => if lt b a then b else a
  end.

Definition Math_max2 (a b : number) : number :=
  match a, b with
  | NaN, _ | _, NaN => NaN
  | _, _ => if lt a b then b else a
  end.

(** [Math.max(...xs)]: the maximum of no argument is [-Infinity]. *)
Definition Math_max (xs : list number) : number :=
  fold_left Math_max2 xs NegInfinity.

End JsNumber.

(* ================================================================== *)
(** ** Records of [src/types/index.ts] *)

Module Types.

Record AudioFile : Type := {
  uri : string;
  fileName : string;
  size : Q;
  type : string;
  audio_duration : option Q
}.

Record TranscriptionResult : Type := {
  text : string;
  start : Q;
  end_ : Q;
  confidence : option Q
}.

Inductive Theme := nature | city | abstract | minimal | colorful.
Inductive AnimationType := fade_anim | karaoke | bounce | slide_anim.
Inductive TextPosition := top | center | bottom.

Record VideoStyle : Type := {
  fontFamily : string;
  fontSize : Q;
  fontColor : string;
  backgroundColor : string;
  theme : Theme;
  animationType : AnimationType;
  textPosition : TextPosition
}.

Inductive VideoSource := stock | ai_generated.

Record BackgroundVideo : Type := {
  id : string;
  url : string;
  keywords : list string;
  duration : Q;
  thumbnail : string;
  source : VideoSource
}.

Inductive ProgressStage :=
  transcription | styling | background | rendering | export.

Record RenderingProgress : Type := {
  stage : ProgressStage;
  progress : Q;
  message : string
}.

End Types.

(* ================================================================== *)
(** ** Exceptions *)

Module Js.

(** [new Error(message)]. *)
Record Error : Type := { error_message : string }.

(** How a call completes: it returns a value or it throws. *)
Inductive completion (A : Type) : Type :=
| Return (a : A)
| Throw (e : Error).

Arguments Return {A} a.
Arguments Throw {A} e.

Definition is_thrown {A} (c : completion A) : bool :=
  match c with Throw _ => true | Return _ => false end.

End Js.

(* ================================================================== *)
(** ** [VideoRenderingModule]: the timeline *)

Module VideoRenderingModule.

Import JsNumber Types Js.

Inductive Transition := fade | slide | zoom | none.

Record Transitions : Type := { t_in : Transition; t_out : Transition }.

Record TimelineSegment : Type := {
  startTime : number;
  endTime : number;
  backgroundVideo : BackgroundVideo;
  lyrics : list TranscriptionResult;
  transitions : option Transitions
}.

Record Resolution : Type := { width : Q; height : Q }.
Inductive Format := mp4 | mov | webm.
Inductive Quality := draft | preview | final.

Record RenderingOptions : Type := {
  resolution : Resolution;
  framerate : Q;
  bitrate : string;
  format : Format;
  quality : Quality
}.

(** [transitionMap[style.theme]]: a lookup in an object literal with the five
    theme keys. *)
Definition transitionMap (t : Theme) : option Transitions :=
  match t with
  | nature => Some {| t_in := fade; t_out := fade |}
  | city => Some {| t_in := slide; t_out := slide |}
  | abstract => Some {| t_in := zoom; t_out := zoom |}
  | minimal => Some {| t_in := fade; t_out := fade |}
  | colorful => Some {| t_in := slide; t_out := slide |}
  end.

(** [getTransitionsForSegment(segmentIndex, totalSegments, style)].  The
    index is a loop counter; the total is whatever [Math.ceil] produced. *)
Definition getTransitionsForSegment
    (segmentIndex : nat) (totalSegments : number) (style : VideoStyle)
  : Transitions :=
  if strict_eq (of_nat segmentIndex) (of_Z 0) then
    {| t_in := fade; t_out := none |}
  else if strict_eq (of_nat segmentIndex) (sub totalSegments (of_Z 1)) then
    {| t_in := none; t_out := fade |}
  else
    match transitionMap (theme style) with
    | Some t => t
    | None => {| t_in := fade; t_out := fade |}
    end.

Definition no_background_videos : Error :=
  {| error_message := "No background videos available for rendering" |}.

Definition targetSegmentDuration : number := of_Z 10.

(** What [buildTimeline] computes before its loop. *)
Definition totalDuration (transcriptions : list TranscriptionResult) : number :=
  Math_max (map (fun t => Finite (end_ t)) transcriptions).

Definition segmentCount (transcriptions : list TranscriptionResult) : number :=
  Math_ceil (div (totalDuration transcriptions) targetSegmentDuration).

Definition actualSegmentDuration (transcriptions : list TranscriptionResult)
  : number :=
  div (totalDuration transcriptions) (segmentCount transcriptions).

(** The body of the loop for counter [i]: the segment that is pushed.
    Called only with a non-empty [backgroundVideos]; [dflt] stands for the
    [undefined] that indexing an empty array would give. *)
Definition segment_at
    (transcriptions : list TranscriptionResult)
    (backgroundVideos : list BackgroundVideo) (dflt : BackgroundVideo)
    (style : VideoStyle) (i : nat) : TimelineSegment :=
  let startTime := mul (of_nat i) (actualSegmentDuration transcriptions) in
  let endTime :=
    Math_min (mul (of_nat (i + 1)) (actualSegmentDuration transcriptions))
             (totalDuration transcriptions) in
  let backgroundVideo :=
    nth (i mod List.length backgroundVideos) backgroundVideos dflt in
  let segmentLyrics :=
    filter (fun t => ge (Finite (start t)) startTime
                     && lt (Finite (start t)) endTime) transcriptions in
  let transitions :=
    getTransitionsForSegment i (segmentCount transcriptions) style in
  {| startTime := startTime;
     endTime := endTime;
     backgroundVideo := backgroundVideo;
     lyrics := segmentLyrics;
     transitions := Some transitions |}.

(** [for (let i = 0; i < segmentCount; i++) { ... timeline.push(...) }],
    threading the array [timeline]; [fuel] bounds the number of rounds. *)
Fixpoint build_loop
    (transcriptions : list TranscriptionResult)
    (backgroundVideos : list BackgroundVideo) (dflt : BackgroundVideo)
    (style : VideoStyle) (fuel i : nat) (timeline : list TimelineSegment)
  : list TimelineSegment :=
  match fuel with
  | O => timeline
  | S fuel' =>
      if lt (of_nat i) (segmentCount transcriptions) then
        build_loop transcriptions backgroundVideos dflt style fuel' (S i)
          (timeline ++
           [segment_at transcriptions backgroundVideos dflt style i])
      else timeline
  end.

(** Rounds after which a counter starting at 0 is no longer below [n]. *)
Definition rounds (n : number) : nat :=
  match n with
  | Finite c => Z.to_nat (Qceiling c)
  | _ => 0%nat
  end.

(** The state in which [buildTimeline] exits: its local array [timeline] and
    the completion. *)
Record BuildExit : Type := {
  timeline_var : list TimelineSegment;
  outcome : completion (list TimelineSegment)
}.

(** [buildTimeline(transcriptions, backgroundVideos, style)]: the test
    [backgroundVideos.length === 0] comes first, then the three constants,
    then the loop. *)
Definition buildTimeline_run
    (transcriptions : list TranscriptionResult)
    (backgroundVideos : list BackgroundVideo) (style : VideoStyle)
  : BuildExit :=
  let timeline := [] in
  match backgroundVideos with
  | [] => {| timeline_var := timeline; outcome := Throw no_background_videos |}
  | dflt :: _ =>
      let timeline :=
        build_loop transcriptions backgroundVideos dflt style
          (rounds (segmentCount transcriptions)) 0 timeline in
      {| timeline_var := timeline; outcome := Return timeline |}
  end.

Definition buildTimeline
    (transcriptions : list TranscriptionResult)
    (backgroundVideos : list BackgroundVideo) (style : VideoStyle)
  : completion (list TimelineSegment) :=
  outcome (buildTimeline_run transcriptions backgroundVideos style).

(* ------------------------------------------------------------------ *)
(** *** Text animations *)

Record Keyframe : Type := {
  time : Q;
  opacity : Q;
  transform : option string;
  kf_backgroundColor : option string
}.

Record Animation : Type := {
  anim_duration : Q;
  anim_startTime : Q;
  anim_endTime : Q;
  keyframes : list Keyframe
}.

Definition kf_transform (t o : Q) (tr : string) : Keyframe :=
  {| time := t; opacity := o; transform := Some tr;
     kf_backgroundColor := None |}.

Definition kf_color (t o : Q) (c : string) : Keyframe :=
  {| time := t; opacity := o; transform := None;
     kf_backgroundColor := Some c |}.

(** [generateTextAnimation(transcription, style)].  The [default] branch of
    the switch is not reachable for a typed [animationType]. *)
Definition generateTextAnimation
    (transcription : TranscriptionResult) (style : VideoStyle) : Animation :=
  let base (ks : list Keyframe) :=
    {| anim_duration := end_ transcription - start transcription;
       anim_startTime := start transcription;
       anim_endTime := end_ transcription;
       keyframes := ks |} in
  match animationType style with
  | fade_anim =>
      base [ kf_transform 0 0 "scale(1)";
             kf_transform (1 # 10) 1 "scale(1)";
             kf_transform (9 # 10) 1 "scale(1)";
             kf_transform 1 0 "scale(1)" ]
  | karaoke =>
      base [ kf_color 0 1 "transparent";
             kf_color (2 # 10) 1 "#FFD700";
             kf_color (8 # 10) 1 "#FFD700";
             kf_color 1 1 "transparent" ]
  | bounce =>
      base [ kf_transform 0 0 "scale(0.8) translateY(20px)";
             kf_transform (3 # 10) 1 "scale(1.2) translateY(-10px)";
             kf_transform (6 # 10) 1 "scale(1) translateY(0px)";
             kf_transform 1 1 "scale(1) translateY(0px)" ]
  | slide_anim =>
      base [ kf_transform 0 0 "translateY(50px)";
             kf_transform (3 # 10) 1 "translateY(0px)";
             kf_transform 1 1 "translateY(0px)" ]
  end.

Record Position : Type := { pos_x : Q; pos_y : Q }.

(** [calculateTextPosition(transcription, style, options)]. *)
Definition calculateTextPosition
    (transcription : TranscriptionResult) (style : VideoStyle)
    (options : RenderingOptions) : Position :=
  let centerX := width (resolution options) / 2 in
  let y :=
    match textPosition style with
    | top => height (resolution options) * (1 # 10)
    | center => height (resolution options) * (5 # 10)
    | bottom => height (resolution options) * (85 # 100)
    end in
  {| pos_x := centerX; pos_y := y |}.

Record TextAnimation : Type := {
  ta_transcription : TranscriptionResult;
  animationData : Animation;
  position : Position
}.

(** [prepareTextAnimations(transcriptions, style, options)]. *)
Definition prepareTextAnimations
    (transcriptions : list TranscriptionResult) (style : VideoStyle)
    (options : RenderingOptions) : list TextAnimation :=
  map (fun transcription =>
         {| ta_transcription := transcription;
            animationData := generateTextAnimation transcription style;
            position := calculateTextPosition transcription style options |})
      transcriptions.

(* ------------------------------------------------------------------ *)
(** *** Effects of one rendering *)

(** The awaited stages of [renderVideo]. *)
Inductive Stage := PrepareVideoLayers | MergeLayers | AddTransitions | ExportVideo.

(** What one call of [renderVideo] does to the outside, in order.  The
    progress callback is taken to return normally. *)
Inductive Effect : Type :=
| Notify (p : RenderingProgress)  (* this.onProgressUpdate(p) *)
| Await (s : Stage)               (* an awaited stage is entered *)
| ConsoleError (cause : Error).   (* console.error('Video rendering failed:', cause) *)

(** A computation that leaves a trace of effects and returns or throws. *)
Definition M (A : Type) : Type := (list Effect * completion A)%type.

Definition ret {A} (a : A) : M A := ([], Return a).
Definition throw {A} (e : Error) : M A := ([], Throw e).
Definition emit (e : Effect) : M unit := ([e], Return tt).

Definition bind {A B} (m : M A) (k : A -> M B) : M B :=
  match m with
  | (tr, Return a) => let (tr', r) := k a in (tr ++ tr', r)
  | (tr, Throw e) => (tr, Throw e)
  end.

(** [try { m } catch (error) { handler error }]. *)
Definition try_catch {A} (m : M A) (handler : Error -> M A) : M A :=
  match m with
  | (tr, Throw e) => let (tr', r) := handler e in (tr ++ tr', r)
  | done => done
  end.

(** A completion of a pure call, seen as a computation. *)
Definition lift {A} (c : completion A) : M A := ([], c).

Declare Scope render_scope.
Delimit Scope render_scope with render.
Notation "x <- m ;; k" := (bind m (fun x => k))
  (at level 61, m at next level, right associativity) : render_scope.
Notation "m ;;; k" := (bind m (fun _ => k))
  (at level 61, right associativity) : render_scope.

(** The instance: only the optional progress callback matters, and only
    through being set or not. *)
Record Renderer : Type := { onProgressUpdate_set : bool }.

(** What the surroundings decide during one call: the reading of
    [Date.now()] in each stage and whether an awaited stage rejects.  In the
    source the stages are stand-ins that always resolve: that is [rejects]
    constantly [None]. *)
Record Env : Type := {
  Date_now : Stage -> Z;
  rejects : Stage -> option Error
}.

Definition resolving (clock : Stage -> Z) : Env :=
  {| Date_now := clock; rejects := fun _ => None |}.

(** [updateProgress(stage, progress, message)]. *)
Definition updateProgress
    (this : Renderer) (stage : ProgressStage) (progress : Q) (message : string)
  : M unit :=
  if onProgressUpdate_set this then
    emit (Notify {| Types.stage := stage;
                    Types.progress := Qmin 100 (Qmax 0 progress);
                    Types.message := message |})
  else ret tt.

(** Entering an awaited stage: it is recorded, and it rejects if the
    surroundings say so. *)
Definition await (env : Env) (s : Stage) : M unit :=
  bind (emit (Await s))
       (fun _ => match rejects env s with
                 | Some e => throw e
                 | None => ret tt
                 end).

Definition format_name (f : Format) : string :=
  match f with mp4 => "mp4" | mov => "mov" | webm => "webm" end.

Definition decimal (z : Z) : string :=
  DecimalString.NilZero.string_of_int (Z.to_int z).

Record VideoLayer : Type := {
  layer_segment : TimelineSegment;
  videoElement : string;
  layer_duration : number
}.

(** [processBackgroundVideo] returns the URL unchanged. *)
Definition processBackgroundVideo
    (backgroundVideo : BackgroundVideo) (targetDuration : number)
    (options : RenderingOptions) : string :=
  url backgroundVideo.

Definition prepareVideoLayers
    (env : Env) (timeline : list TimelineSegment) (options : RenderingOptions)
  : M (list VideoLayer) :=
  (await env PrepareVideoLayers ;;;
   ret (map (fun segment =>
               {| layer_segment := segment;
                  videoElement :=
                    processBackgroundVideo (backgroundVideo segment)
                      (sub (endTime segment) (startTime segment)) options;
                  layer_duration :=
                    sub (endTime segment) (startTime segment) |})
            timeline))%render.

Definition mergeLayers
    (env : Env) (videoLayers : list VideoLayer)
    (textAnimations : list TextAnimation) (audioFile : AudioFile)
    (options : RenderingOptions) : M string :=
  (await env MergeLayers ;;;
   ret ("temp_composite_" ++ decimal (Date_now env MergeLayers) ++ "."
        ++ format_name (format options))%string)%render.

Definition addTransitions
    (env : Env) (compositeVideo : string) (timeline : list TimelineSegment)
    (options : RenderingOptions) : M string :=
  (await env AddTransitions ;;;
   ret ("temp_with_transitions_" ++ decimal (Date_now env AddTransitions)
        ++ "." ++ format_name (format options))%string)%render.

Definition exportVideo
    (env : Env) (processedVideo : string) (options : RenderingOptions)
  : M string :=
  (await env ExportVideo ;;;
   ret ("final_video_" ++ decimal (Date_now env ExportVideo) ++ "."
        ++ format_name (format options))%string)%render.

Definition render_failed : Error :=
  {| error_message := "Failed to render video. Please try again." |}.

(** [renderVideo(audioFile, transcriptions, backgroundVideos, style, options)]. *)
Definition renderVideo
    (this : Renderer) (env : Env) (audioFile : AudioFile)
    (transcriptions : list TranscriptionResult)
    (backgroundVideos : list BackgroundVideo) (style : VideoStyle)
    (options : RenderingOptions) : M string :=
  try_catch
    (updateProgress this rendering 0 "Starting video rendering..." ;;;
     updateProgress this rendering 10 "Building timeline..." ;;;
     timeline <- lift (buildTimeline transcriptions backgroundVideos style) ;;
     updateProgress this rendering 25 "Preparing video layers..." ;;;
     videoLayers <- prepareVideoLayers env timeline options ;;
     updateProgress this rendering 40 "Generating text animations..." ;;;
     textAnimations <- ret (prepareTextAnimations transcriptions style options) ;;
     updateProgress this rendering 60 "Merging video layers..." ;;;
     compositeVideo <-
       mergeLayers env videoLayers textAnimations audioFile options ;;
     updateProgress this rendering 80 "Adding transitions..." ;;;
     finalVideo <- addTransitions env compositeVideo timeline options ;;
     updateProgress this rendering 95 "Exporting final video..." ;;;
     outputPath <- exportVideo env finalVideo options ;;
     updateProgress this rendering 100 "Video rendering complete!" ;;;
     ret outputPath)%render
    (fun error =>
       (emit (ConsoleError error) ;;; throw render_failed)%render).

(** The percentages passed to the callback during a call, in order. *)
Definition percents (tr : list Effect) : list Q :=
  flat_map (fun e => match e with
                     | Notify p => [progress p]
                     | _ => []
                     end) tr.

Definition awaited (tr : list Effect) : list Stage :=
  flat_map (fun e => match e with Await s => [s] | _ => [] end) tr.

(* ------------------------------------------------------------------ *)
(** *** Preview and estimate *)

(** [generatePreview(audioFile, transcriptions, backgroundVideos, style)]:
    a rendering with the options of a 480p preview. *)
Definition previewOptions : RenderingOptions :=
  {| resolution := {| width := 854; height := 480 |};
     framerate := 24;
     bitrate := "1M";
     format := mp4;
     quality := preview |}.

Definition generatePreview
    (this : Renderer) (env : Env) (audioFile : AudioFile)
    (transcriptions : list TranscriptionResult)
    (backgroundVideos : list BackgroundVideo) (style : VideoStyle)
  : M string :=
  renderVideo this env audioFile transcriptions backgroundVideos style
    previewOptions.

Definition qualityMultipliers (q : Quality) : Q :=
  match q with
  | draft => 5 # 10
  | preview => 7 # 10
  | final => 15 # 10
  end.

(** [estimateRenderingTime(totalDuration, transcriptions, backgroundVideos,
    options)]; the successive values of [timePerSecond] are numbered. *)
Definition estimateRenderingTime
    (totalDuration : Q) (transcriptions : list TranscriptionResult)
    (backgroundVideos : list BackgroundVideo) (options : RenderingOptions)
  : number :=
  let timePerSecond0 := of_Z 2 in
  let pixelCount :=
    mul (Finite (width (resolution options)))
        (Finite (height (resolution options))) in
  let hdPixels := mul (of_Z 1920) (of_Z 1080) in
  let resolutionMultiplier := div pixelCount hdPixels in
  let timePerSecond1 := mul timePerSecond0 resolutionMultiplier in
  let textComplexity :=
    div (of_nat (List.length transcriptions)) (Finite totalDuration) in
  let timePerSecond2 :=
    mul timePerSecond1
        (add (of_Z 1) (mul textComplexity (Finite (1 # 10)))) in
  let videoComplexity :=
    div (of_nat (List.length backgroundVideos))
        (div (Finite totalDuration) (of_Z 10)) in
  let timePerSecond3 :=
    mul timePerSecond2
        (add (of_Z 1) (mul videoComplexity (Finite (2 # 10)))) in
  let timePerSecond4 :=
    mul timePerSecond3 (Finite (qualityMultipliers (quality options))) in
  Math_ceil (mul (Finite totalDuration) timePerSecond4).

End VideoRenderingModule.

(* ================================================================== *)
(** ** [RenderingQueue] *)

Module RenderingQueue.

Import JsNumber Types Js VideoRenderingModule.

(** An entry of [queue].  Its [onComplete] and [onError] are the [resolve]
    and [reject] of the promise that [addJob] returned; the calls made to
    them are kept in [settled]. *)
Record Job : Type := {
  job_id : string;
  audioFile : AudioFile;
  transcriptions : list TranscriptionResult;
  backgroundVideos : list BackgroundVideo;
  style : VideoStyle;
  options : RenderingOptions
}.

(** The fields of the class, and what the event loop holds for it:
    - [awaiting]: the activations of [processQueue] suspended at
      [await this.renderer.renderVideo(...)], each with its job;
    - [timers]: the pending [setTimeout(() => this.processQueue(), 100)];
    - [settled]: the calls of [onComplete] (a [Return]) and [onError]
      (a [Throw]) made so far, oldest first. *)
Record State : Type := {
  queue : list Job;
  isProcessing : bool;
  awaiting : list Job;
  timers : nat;
  settled : list (Job * completion string)
}.

(** [private renderer = new VideoRenderingModule()]: no callback is given. *)
Definition renderer : Renderer := {| onProgressUpdate_set := false |}.

Definition initial : State :=
  {| queue := []; isProcessing := false; awaiting := []; timers := 0;
     settled := [] |}.

(** [processQueue()] up to its [await]. *)
Definition processQueue (st : State) : State :=
  match queue st with
  | [] =>
      {| queue := []; isProcessing := false; awaiting := awaiting st;
         timers := timers st; settled := settled st |}
  | job :: rest =>
      {| queue := rest; isProcessing := true;
         awaiting := awaiting st ++ [job];
         timers := timers st; settled := settled st |}
  end.

(** [addJob(id, ...)]: the executor of the promise runs at once. *)
Definition addJob (job : Job) (st : State) : State :=
  let st' :=
    {| queue := queue st ++ [job]; isProcessing := isProcessing st;
       awaiting := awaiting st; timers := timers st;
       settled := settled st |} in
  if negb (isProcessing st') then processQueue st' else st'.

Fixpoint remove_at {A} (k : nat) (l : list A) : list A :=
  match k, l with
  | _, [] => []
  | O, _ :: l' => l'
  | S k', x :: l' => x :: remove_at k' l'
  end.

(** How [this.renderer.renderVideo(job.audioFile, ...)] settles in
    surroundings [env]. *)
Definition rendering (job : Job) (env : Env) : completion string :=
  snd (renderVideo renderer env (audioFile job) (transcriptions job)
         (backgroundVideos job) (style job) (options job)).

Arguments rendering : simpl never.

(** The rest of [processQueue()] for the [k]-th suspended activation, once
    its rendering has settled in surroundings [env]: [onComplete] is called
    with the result or [onError] with the error, and the next round is
    scheduled. *)
Definition resume (k : nat) (env : Env) (st : State) : option State :=
  match nth_error (awaiting st) k with
  | None => None
  | Some job =>
      Some {| queue := queue st; isProcessing := isProcessing st;
              awaiting := remove_at k (awaiting st);
              timers := S (timers st);
              settled := settled st ++ [(job, rendering job env)] |}
  end.

(** A pending timer fires. *)
Definition timer_fires (st : State) : option State :=
  match timers st with
  | O => None
  | S n =>
      Some (processQueue
              {| queue := queue st; isProcessing := isProcessing st;
                 awaiting := awaiting st; timers := n;
                 settled := settled st |})
  end.

(** [clearQueue()]. *)
Definition clearQueue (st : State) : State :=
  {| queue := []; isProcessing := isProcessing st; awaiting := awaiting st;
     timers := timers st; settled := settled st |}.

Record QueueStatus : Type := { status_position : nat; status_total : nat }.

(** [getQueueStatus()]. *)
Definition getQueueStatus (st : State) : QueueStatus :=
  {| status_position := if isProcessing st then 1 else 0;
     status_total :=
       List.length (queue st) + (if isProcessing st then 1 else 0) |}.

(** The turns of the event loop that touch the queue. *)
Inductive Event : Type :=
| Submit (job : Job)
| Settle (k : nat) (env : Env)
| TimerFires
| Clear.

Definition step (st : State) (ev : Event) : option State :=
  match ev with
  | Submit job => Some (addJob job st)
  | Settle k env => resume k env st
  | TimerFires => timer_fires st
  | Clear => Some (clearQueue st)
  end.

Fixpoint run (st : State) (evs : list Event) : option State :=
  match evs with
  | [] => Some st
  | ev :: evs' =>
      match step st ev with
      | Some st' => run st' evs'
      | None => None
      end
  end.

(** The jobs handed to [addJob], in order. *)
Definition submitted (evs : list Event) : list Job :=
  flat_map (fun ev => match ev with Submit j => [j] | _ => [] end) evs.

Definition clears (evs : list Event) : bool :=
  existsb (fun ev => match ev with Clear => true | _ => false end) evs.

(** Nothing is left to do: no job waits, none renders, no timer is pending. *)
Definition quiescent (st : State) : bool :=
  match queue st, awaiting st, timers st with
  | [], [], O => true
  | _, _, _ => false
  end.

(** One schedule that lets everything finish: settle what renders, fire the
    timer, and again.  [envs] gives the surroundings of the successive
    renderings. *)
Fixpoint drain (fuel : nat) (envs : nat -> Env) (st : State) : State :=
  match fuel with
  | O => st
  | S fuel' =>
      match resume 0 (envs (List.length (settled st))) st with
      | Some st' => drain fuel' envs st'
      | None =>
          match timer_fires st with
          | Some st' => drain fuel' envs st'
          | None => st
          end
      end
  end.

End RenderingQueue.

(* ================================================================== *)
(** ** [VisualBackgroundGenerator.extractKeywords] *)

Module VisualBackgroundGenerator.

Import Types.

Definition code (c : ascii) : N := N_of_ascii c.

Definition between (lo hi n : N) : bool := (lo <=? n)%N && (n <=? hi)%N.

(** [toLowerCase] on code units below 256: the letters A-Z and the upper-case
    letters of the Latin-1 block. *)
Definition toLowerCase_char (c : ascii) : ascii :=
  let n := code c in
  if between 65 90 n || (between 192 222 n && negb (n =? 215)%N)
  then ascii_of_N (n + 32) else c.

Fixpoint toLowerCase (s : string) : string :=
  match s with
  | EmptyString => EmptyString
  | String c s' => String (toLowerCase_char c) (toLowerCase s')
  end.

(** [\w] *)
Definition is_word (c : ascii) : bool :=
  let n := code c in
  between 97 122 n || between 65 90 n || between 48 57 n || (n =? 95)%N.

(** [\s] on code units below 256. *)
Definition is_space (c : ascii) : bool :=
  let n := code c in
  between 9 13 n || (n =? 32)%N || (n =? 160)%N.

(** [.replace(/[^\w\s]/g, ' ')] *)
Fixpoint replace_punctuation (s : string) : string :=
  match s with
  | EmptyString => EmptyString
  | String c s' =>
      String (if is_word c || is_space c then c else " "%char)
             (replace_punctuation s')
  end.

Definition starts_with_space (s : string) : bool :=
  match s with
  | String c _ => is_space c
  | EmptyString => false
  end.

(** [.split(/\s+/)]: the pieces between maximal runs of white space; a
    leading or trailing run leaves an empty piece. *)
Fixpoint split_spaces (s : string) : list string :=
  match s with
  | EmptyString => [EmptyString]
  | String c s' =>
      if is_space c then
        if starts_with_space s' then split_spaces s'
        else EmptyString :: split_spaces s'
      else
        match split_spaces s' with
        | piece :: pieces => String c piece :: pieces
        | [] => [String c EmptyString]
        end
  end.

Definition stopWords : list string :=
  ["the"; "a"; "an"; "and"; "or"; "but"; "in"; "on"; "at"; "to"; "for";
   "of"; "with"; "by"; "is"; "are"; "was"; "were"; "be"; "been"; "being";
   "have"; "has"; "had"; "do"; "does"; "did"; "will"; "would"; "could";
   "should"; "may"; "might"; "must"; "can"; "i"; "you"; "he"; "she";
   "it"; "we"; "they"; "me"; "him"; "her"; "us"; "them"; "my"; "your";
   "his"; "her"; "its"; "our"; "their"; "this"; "that"; "these"; "those"]%string.

(** [stopWords.has(word)] *)
Definition has (set : list string) (word : string) : bool :=
  existsb (String.eqb word) set.

(** [wordCount.set(word, (wordCount.get(word) || 0) + 1)] on a [Map] kept as
    its entries in insertion order. *)
Fixpoint bump (word : string) (wordCount : list (string * nat))
  : list (string * nat) :=
  match wordCount with
  | [] => [(word, 1%nat)]
  | (w, n) :: rest =>
      if String.eqb w word then (w, S n) :: rest
      else (w, n) :: bump word rest
  end.

(** [.sort((a, b) => b[1] - a[1])]: the stable sort by decreasing count. *)
Fixpoint insert_entry (a : string * nat) (sorted : list (string * nat))
  : list (string * nat) :=
  match sorted with
  | [] => [a]
  | b :: rest =>
      if (snd b <=? snd a)%nat then a :: b :: rest
      else b :: insert_entry a rest
  end.

Definition sort_entries (entries : list (string * nat)) : list (string * nat) :=
  fold_right insert_entry [] entries.

Definition fullText (transcriptions : list TranscriptionResult) : string :=
  toLowerCase (String.concat " " (map text transcriptions)).

(** The pieces of the text, before any is dropped. *)
Definition pieces (transcriptions : list TranscriptionResult) : list string :=
  split_spaces (replace_punctuation (fullText transcriptions)).

Definition keep (word : string) : bool :=
  (2 <? String.length word)%nat && negb (has stopWords word).

Definition words (transcriptions : list TranscriptionResult) : list string :=
  filter keep (pieces transcriptions).

Definition wordCount (transcriptions : list TranscriptionResult)
  : list (string * nat) :=
  fold_left (fun m word => bump word m) (words transcriptions) [].

(** [extractKeywords(transcriptions)] *)
Definition extractKeywords (transcriptions : list TranscriptionResult)
  : list string :=
  map fst (firstn 10 (sort_entries (wordCount transcriptions))).

(** How often a word occurs in the text: as a piece of the lower-cased text
    of all spans, cut at white space and punctuation. *)
Definition frequency (transcriptions : list TranscriptionResult) (word : string)
  : nat :=
  count_occ string_dec (pieces transcriptions) word.

(** [wordCount.get(word) || 0] *)
Fixpoint get_or_0 (word : string) (wordCount : list (string * nat)) : nat :=
  match wordCount with
  | [] => 0%nat
  | (w, n) :: rest => if String.eqb w word then n else get_or_0 word rest
  end.

(** Every character of the string passes the test. *)
Fixpoint every (test : ascii -> bool) (s : string) : bool :=
  match s with
  | EmptyString => true
  | String c s' => test c && every test s'
  end.

(** [toLowerCase] leaves the character as it is. *)
Definition lower_char (c : ascii) : bool := Ascii.eqb (toLowerCase_char c) c.

(** Entries in the order of decreasing count. *)
Definition by_count (a b : string * nat) : Prop := (snd b <= snd a)%nat.

(** A lower-case letter, a digit or the underscore. *)
Definition keyword_char (c : ascii) : bool :=
  let n := code c in
  between 97 122 n || between 48 57 n || (n =? 95)%N.

(* ------------------------------------------------------------------ *)
(** *** Search terms, stand-ins and fallbacks *)

(** [array.map((x, index) => f index x)] *)
Fixpoint mapi_from {A B : Type} (f : nat -> A -> B) (index : nat) (l : list A)
  : list B :=
  match l with
  | [] => []
  | x :: l' => f index x :: mapi_from f (S index) l'
  end.

Definition theme_name (t : Theme) : string :=
  match t with
  | nature => "nature"
  | city => "city"
  | abstract => "abstract"
  | minimal => "minimal"
  | colorful => "colorful"
  end.

(** [themeModifiers[theme]] *)
Definition themeModifiers (t : Theme) : option (list string) :=
  match t with
  | nature => Some ["forest"; "mountains"; "ocean"; "sunset"; "landscape"]
  | city => Some ["urban"; "skyline"; "streets"; "buildings"; "lights"]
  | abstract => Some ["abstract"; "geometric"; "colorful"; "patterns"; "artistic"]
  | minimal => Some ["minimalist"; "clean"; "simple"; "modern"; "elegant"]
  | colorful => Some ["vibrant"; "colorful"; "bright"; "rainbow"; "vivid"]
  end%string.

(** [combineKeywordsWithTheme(keywords, theme)] *)
Definition combineKeywordsWithTheme (keywords : list string) (theme : Theme)
  : list string :=
  let modifiers :=
    match themeModifiers theme with Some m => m | None => [] end in
  let combinedTerms :=
    flat_map (fun keyword =>
                keyword ::
                map (fun modifier => (modifier ++ " " ++ keyword)%string)
                    modifiers)
             keywords in
  combinedTerms ++ modifiers.

(** [encodeURIComponent] on code units below 256: letters, digits and
    [- _ . ! ~ * ' ( )] stay, any other character becomes the bytes of its
    UTF-8 form, each written [%XX]. *)
Definition unreserved (c : ascii) : bool :=
  let n := code c in
  between 97 122 n || between 65 90 n || between 48 57 n
  || existsb (N.eqb n) [45; 95; 46; 33; 126; 42; 39; 40; 41]%N.

Definition hex_digit (n : N) : ascii :=
  if (n <? 10)%N then ascii_of_N (48 + n) else ascii_of_N (55 + n).

Definition percent_byte (b : N) : string :=
  String "%" (String (hex_digit (b / 16)) (String (hex_digit (b mod 16)) "")).

Definition encode_char (c : ascii) : string :=
  let n := code c in
  if unreserved c then String c ""
  else if (n <? 128)%N then percent_byte n
  else (percent_byte (192 + n / 64) ++ percent_byte (128 + n mod 64))%string.

Fixpoint encodeURIComponent (s : string) : string :=
  match s with
  | EmptyString => EmptyString
  | String c s' => (encode_char c ++ encodeURIComponent s')%string
  end.

Definition sample_video_url : string :=
  "https://sample-videos.com/zip/10/mp4/SampleVideo_1280x720_1mb.mp4".

(** [getMockPexelsVideos(query)] *)
Definition getMockPexelsVideos (query : string) : list BackgroundVideo :=
  [ {| id := "mock-pexels-" ++ query;
       url := sample_video_url;
       keywords := [query];
       duration := 30;
       thumbnail :=
         "https://via.placeholder.com/1280x720/0066cc/ffffff?text=Pexels+Video";
       source := stock |} ]%string.

(** [getMockUnsplashVideos(query)] *)
Definition getMockUnsplashVideos (query : string) : list BackgroundVideo :=
  [ {| id := "mock-unsplash-" ++ query;
       url := "https://via.placeholder.com/1920x1080/ff6b6b/ffffff?text="
              ++ encodeURIComponent query;
       keywords := [query];
       duration := 30;
       thumbnail := "https://via.placeholder.com/400x300/ff6b6b/ffffff?text="
                    ++ encodeURIComponent query;
       source := stock |} ]%string.

(** [fallbackUrls[style.theme]] *)
Definition fallbackUrls (t : Theme) : option (list string) :=
  match t with
  | nature =>
      Some [sample_video_url;
            "https://sample-videos.com/zip/10/mp4/SampleVideo_1280x720_2mb.mp4"%string]
  | city | abstract | minimal | colorful => Some [sample_video_url]
  end.

(** [getFallbackVideos(style)] *)
Definition getFallbackVideos (style : VideoStyle) : list BackgroundVideo :=
  let urls :=
    match fallbackUrls (theme style) with
    | Some urls => urls
    | None => match fallbackUrls nature with Some urls => urls | None => [] end
    end in
  mapi_from
    (fun index url =>
       {| id := ("fallback-" ++ theme_name (theme style) ++ "-"
                 ++ VideoRenderingModule.decimal (Z.of_nat index))%string;
          Types.url := url;
          keywords := [theme_name (theme style)];
          duration := 30;
          thumbnail := url;
          source := stock |})
    0 urls.

(* ------------------------------------------------------------------ *)
(** *** The services behind the generator *)

(** The instance: the four keys, an absent one being [''] . *)
Record Generator : Type := {
  pexelsApiKey : string;
  unsplashApiKey : string;
  runwayApiKey : string;
  stabilityApiKey : string
}.

(** [if (key)]: a string counts as true when it is not empty. *)
Definition truthy (key : string) : bool :=
  match key with EmptyString => false | _ => true end.

(** What the answer of Pexels gives for one video: [video.id],
    [video.video_files[0]?.link], [video.duration], [video.image]. *)
Record PexelsVideo : Type := {
  pexels_id : string;
  pexels_link : option string;
  pexels_duration : option Q;
  pexels_image : string
}.

(** What the answer of Unsplash gives for one image: [image.id],
    [image.urls.full], [image.urls.thumb]. *)
Record UnsplashImage : Type := {
  unsplash_id : string;
  unsplash_full : string;
  unsplash_thumb : string
}.

(** The answers of the remote services.  [None] stands for every way a
    request ends in the [catch] of its caller: no connection, a status that
    is not ok, an answer of another shape. *)
Record Services : Type := {
  pexels_videos : string -> option (list PexelsVideo);
  unsplash_results : string -> option (list UnsplashImage);
  runway_task : string -> option string;
  stability_image : string -> option string;
  stability_now : string -> Z
}.

(** [video.duration || 30]: 0 counts as absent. *)
Definition duration_or_30 (d : option Q) : Q :=
  match d with
  | Some q => if Qeq_bool q 0 then 30 else q
  | None => 30
  end.

(** [searchPexelsVideos(query)] *)
Definition searchPexelsVideos (this : Generator) (sv : Services) (query : string)
  : list BackgroundVideo :=
  if negb (truthy (pexelsApiKey this)) then getMockPexelsVideos query
  else
    match pexels_videos sv query with
    | Some videos =>
        map (fun video =>
               {| id := ("pexels-" ++ pexels_id video)%string;
                  url := match pexels_link video with
                         | Some link => if truthy link then link else ""%string
                         | None => ""%string
                         end;
                  keywords := [query];
                  duration := duration_or_30 (pexels_duration video);
                  thumbnail := pexels_image video;
                  source := stock |})
            videos
    | None => getMockPexelsVideos query
    end.

(** [searchUnsplashImages(query)] *)
Definition searchUnsplashImages (this : Generator) (sv : Services) (query : string)
  : list BackgroundVideo :=
  if negb (truthy (unsplashApiKey this)) then getMockUnsplashVideos query
  else
    match unsplash_results sv query with
    | Some images =>
        map (fun image =>
               {| id := ("unsplash-" ++ unsplash_id image)%string;
                  url := unsplash_full image;
                  keywords := [query];
                  duration := 30;
                  thumbnail := unsplash_thumb image;
                  source := stock |})
            images
    | None => getMockUnsplashVideos query
    end.

(** One round of the loop of [generateStockFootage]. *)
Definition search_term (this : Generator) (sv : Services)
    (backgroundVideos : list BackgroundVideo) (term : string)
  : list BackgroundVideo :=
  let backgroundVideos := backgroundVideos ++ searchPexelsVideos this sv term in
  if (List.length backgroundVideos <? 2)%nat
  then backgroundVideos ++ searchUnsplashImages this sv term
  else backgroundVideos.

(** [generateStockFootage(keywords, style)] *)
Definition generateStockFootage (this : Generator) (sv : Services)
    (keywords : list string) (style : VideoStyle) : list BackgroundVideo :=
  let searchTerms := combineKeywordsWithTheme keywords (theme style) in
  firstn 5 (fold_left (search_term this sv) (firstn 3 searchTerms) []).

(* ------------------------------------------------------------------ *)
(** *** Generated visuals *)

(** [text.includes(word)] *)
Fixpoint includes (text word : string) : bool :=
  if String.prefix word text then true
  else match text with
       | EmptyString => false
       | String _ rest => includes rest word
       end.

Definition emotionWords : list (string * list string) :=
  [("happy", ["happy"; "joy"; "love"; "smile"; "laugh"; "celebrate"; "bright"; "shine"]);
   ("sad", ["sad"; "cry"; "tears"; "lonely"; "miss"; "lost"; "dark"; "pain"]);
   ("calm", ["peace"; "calm"; "quiet"; "soft"; "gentle"; "serene"; "still"]);
   ("energetic", ["energy"; "dance"; "jump"; "fast"; "move"; "power"; "strong"])]%string.

(** [words.reduce((count, word) => count + (text.includes(word) ? 1 : 0), 0)] *)
Definition score (text : string) (emotion_words : list string) : nat :=
  fold_left (fun count word => (count + if includes text word then 1 else 0)%nat)
            emotion_words 0%nat.

(** One round of the [forEach] of [detectEmotion] on [maxScore] and
    [dominantEmotion]. *)
Definition weigh (text : string) (best : nat * string)
    (entry : string * list string) : nat * string :=
  let s := score text (snd entry) in
  if (fst best <? s)%nat then (s, fst entry) else best.

(** [detectEmotion(transcriptions)] *)
Definition detectEmotion (transcriptions : list TranscriptionResult) : string :=
  let text := toLowerCase (String.concat " " (map Types.text transcriptions)) in
  snd (fold_left (weigh text) emotionWords (0%nat, "calm"%string)).

(** [getThemeDescription(theme)] *)
Definition getThemeDescription (t : Theme) : string :=
  match t with
  | nature => "natural, organic, peaceful outdoor"
  | city => "urban, modern, architectural"
  | abstract => "abstract, artistic, creative"
  | minimal => "minimalist, clean, simple"
  | colorful => "vibrant, colorful, dynamic"
  end.

Definition emotionDescriptions : list (string * string) :=
  [("happy", "uplifting, joyful, bright");
   ("sad", "melancholic, moody, atmospheric");
   ("calm", "peaceful, serene, tranquil");
   ("energetic", "dynamic, energetic, powerful")]%string.

(** [getEmotionDescription(emotion)] *)
Definition getEmotionDescription (emotion : string) : string :=
  match find (fun entry => String.eqb (fst entry) emotion) emotionDescriptions with
  | Some entry => snd entry
  | None => "atmospheric"
  end.

(** [createAIPrompts(keywords, style, transcriptions)] *)
Definition createAIPrompts (keywords : list string) (style : VideoStyle)
    (transcriptions : list TranscriptionResult) : list string :=
  let emotion := detectEmotion transcriptions in
  map (fun keyword =>
         let themeDescription := getThemeDescription (theme style) in
         let emotionDescription := getEmotionDescription emotion in
         ("A " ++ emotionDescription ++ " " ++ themeDescription
          ++ " scene featuring " ++ keyword
          ++ ", cinematic lighting, high quality, 4K resolution, smooth camera movement")%string)
      (firstn 3 keywords).

(** [generateWithRunwayML(prompt)]; [None] is [null]. *)
Definition generateWithRunwayML (sv : Services) (prompt : string)
  : option BackgroundVideo :=
  match runway_task sv prompt with
  | Some task =>
      let videoUrl := ("https://runway-generated-video-" ++ task ++ ".mp4")%string in
      Some {| id := ("runway-" ++ task)%string;
              url := videoUrl;
              keywords := [prompt];
              duration := 4;
              thumbnail := videoUrl;
              source := ai_generated |}
  | None => None
  end.

(** [generateWithStableDiffusion(prompt)] *)
Definition generateWithStableDiffusion (sv : Services) (prompt : string)
  : option BackgroundVideo :=
  match stability_image sv prompt with
  | Some imageBase64 =>
      let imageUrl := ("data:image/png;base64," ++ imageBase64)%string in
      Some {| id := ("stability-"
                     ++ VideoRenderingModule.decimal (stability_now sv prompt))%string;
              url := imageUrl;
              keywords := [prompt];
              duration := 30;
              thumbnail := imageUrl;
              source := ai_generated |}
  | None => None
  end.

Definition push_if_any (aiVideos : list BackgroundVideo)
    (video : option BackgroundVideo) : list BackgroundVideo :=
  match video with Some v => aiVideos ++ [v] | None => aiVideos end.

(** One round of the loop of [generateAIVisuals]. *)
Definition generate_for (this : Generator) (sv : Services)
    (aiVideos : list BackgroundVideo) (prompt : string)
  : list BackgroundVideo :=
  let aiVideos :=
    if truthy (runwayApiKey this)
    then push_if_any aiVideos (generateWithRunwayML sv prompt)
    else aiVideos in
  if (List.length aiVideos =? 0)%nat && truthy (stabilityApiKey this)
  then push_if_any aiVideos (generateWithStableDiffusion sv prompt)
  else aiVideos.

(** [generateAIVisuals(keywords, style, transcriptions)] *)
Definition generateAIVisuals (this : Generator) (sv : Services)
    (keywords : list string) (style : VideoStyle)
    (transcriptions : list TranscriptionResult) : list BackgroundVideo :=
  let prompts := createAIPrompts keywords style transcriptions in
  let aiVideos := fold_left (generate_for this sv) (firstn 3 prompts) [] in
  if (0 <? List.length aiVideos)%nat then aiVideos else getFallbackVideos style.

Inductive Approach := use_stock | use_ai_generated.

(** [generateBackgroundVisuals(transcriptions, style, approach)].  Every
    request is caught where it is made, so the [catch] of this function,
    which returns the fallback videos, is never entered. *)
Definition generateBackgroundVisuals (this : Generator) (sv : Services)
    (transcriptions : list TranscriptionResult) (style : VideoStyle)
    (approach : Approach) : list BackgroundVideo :=
  let keywords := extractKeywords transcriptions in
  match approach with
  | use_stock => generateStockFootage this sv keywords style
  | use_ai_generated => generateAIVisuals this sv keywords style transcriptions
  end.

(* ------------------------------------------------------------------ *)
(** *** One slot per clip *)

Record Slot : Type := {
  slot_video : BackgroundVideo;
  slot_startTime : JsNumber.number;
  slot_endTime : JsNumber.number
}.

(** [selectVideosForSegments(backgroundVideos, transcriptions)] *)
Definition selectVideosForSegments
    (backgroundVideos : list BackgroundVideo)
    (transcriptions : list TranscriptionResult) : list Slot :=
  match backgroundVideos with
  | [] => []
  | _ =>
      let totalDuration :=
        JsNumber.Math_max
          (map (fun t => JsNumber.Finite (end_ t)) transcriptions) in
      let segmentDuration :=
        JsNumber.div totalDuration
          (JsNumber.of_nat (List.length backgroundVideos)) in
      mapi_from
        (fun index video =>
           {| slot_video := video;
              slot_startTime :=
                JsNumber.mul (JsNumber.of_nat index) segmentDuration;
              slot_endTime :=
                JsNumber.Math_min
                  (JsNumber.mul (JsNumber.of_nat (index + 1)) segmentDuration)
                  totalDuration |})
        0 backgroundVideos
  end.

End VisualBackgroundGenerator.

(* ================================================================== *)
(** ** Vocabulary of the statements *)

Module Properties.

Import JsNumber Types Js VideoRenderingModule RenderingQueue.

(** [endTime - startTime] of a segment. *)
Definition segment_length (s : TimelineSegment) : number :=
  sub (endTime s) (startTime s).

(** The lengths of the segments added up from 0, first to last. *)
Definition sum_of_lengths (tl : list TimelineSegment) : number :=
  fold_left (fun acc s => add acc (segment_length s)) tl (of_Z 0).

(** Each segment ends where the next one starts. *)
Fixpoint contiguous (tl : list TimelineSegment) : Prop :=
  match tl with
  | a :: (b :: _) as rest =>
      strict_eq (endTime a) (startTime b) = true /\ contiguous rest
  | _ => True
  end.

Definition last_segment (tl : list TimelineSegment) : option TimelineSegment :=
  hd_error (rev tl).

(** The segments tile [[0, total]]: there is a first segment and it starts
    at 0, boundaries are contiguous, the last segment ends at [total], and
    the lengths add up to [total]. *)
Definition tiles (tl : list TimelineSegment) (total : number) : Prop :=
  contiguous tl /\
  (exists first, hd_error tl = Some first /\
                 strict_eq (startTime first) (of_Z 0) = true) /\
  (exists final, last_segment tl = Some final /\
                 strict_eq (endTime final) total = true) /\
  strict_eq (sum_of_lengths tl) total = true.

(** The number of segments is [ceil(total / 10)] and every segment has the
    length [total / segmentCount]. *)
Definition evenly_cut (tl : list TimelineSegment) (total : number) : Prop :=
  strict_eq (of_nat (List.length tl)) (Math_ceil (div total (of_Z 10))) = true /\
  Forall (fun s => strict_eq (segment_length s)
                     (div total (of_nat (List.length tl))) = true) tl.

(** The span's start lies in the half-open interval of the segment. *)
Definition covers (seg : TimelineSegment) (s : TranscriptionResult) : Prop :=
  ge (Finite (start s)) (startTime seg) = true /\
  lt (Finite (start s)) (endTime seg) = true.

(** The span is listed by the segment at index [i] and by no other. *)
Definition owned_by (tl : list TimelineSegment) (s : TranscriptionResult)
    (i : nat) : Prop :=
  (exists seg, nth_error tl i = Some seg /\ In s (lyrics seg) /\ covers seg s) /\
  forall j seg', nth_error tl j = Some seg' -> In s (lyrics seg') -> j = i.

Definition out_of (seg : TimelineSegment) : option Transition :=
  option_map t_out (transitions seg).

Definition in_of (seg : TimelineSegment) : option Transition :=
  option_map t_in (transitions seg).

(** A list of percentages never goes down. *)
Definition non_decreasing (ps : list Q) : Prop :=
  forall i p q, nth_error ps i = Some p -> nth_error ps (S i) = Some q -> p <= q.

Definition last_percent (ps : list Q) : option Q := hd_error (rev ps).

(** The same, decided. *)
Fixpoint non_decreasingb (ps : list Q) : bool :=
  match ps with
  | p :: ((q :: _) as rest) => Qle_bool p q && non_decreasingb rest
  | _ => true
  end.

Definition in_range (p : Q) : Prop := 0 <= p /\ p <= 100.

Definition in_rangeb (p : Q) : bool := Qle_bool 0 p && Qle_bool p 100.

(** The last effect of a trace. *)
Definition last_effect (tr : list Effect) : option Effect := hd_error (rev tr).

(** The error that made a rendering fail: thrown by [buildTimeline] or by a
    stage that was entered and rejected. *)
Definition triggering
    (env : Env) (T : list TranscriptionResult) (clips : list BackgroundVideo)
    (sty : VideoStyle) (tr : list Effect) (cause : Error) : Prop :=
  buildTimeline T clips sty = Throw cause \/
  exists s, In s (awaited tr) /\ rejects env s = Some cause.

(** The jobs whose callback was called, oldest first. *)
Definition served (st : State) : list Job := map fst (settled st).

(** The flag [isProcessing] is set exactly while one rendering is awaited or
    one timer is pending, never both, and it is unset only over an empty
    queue. *)
Definition balanced (st : State) : Prop :=
  (List.length (awaiting st) + timers st
   = if isProcessing st then 1 else 0)%nat /\
  (isProcessing st = false -> queue st = []).

(** Turns still needed before the queue is at rest. *)
Definition turns_left (st : State) : nat :=
  2 * (List.length (awaiting st) + List.length (queue st)) + timers st.

(** For a total duration [t]: the number of segments and their common
    length, as rationals. *)
Definition count_of (t : Q) : Z := Qceiling (t / inject_Z 10).
Definition piece_of (t : Q) : Q := t / inject_Z (count_of t).


(** The test of the filter that picks the lyrics of segment [i]. *)
Definition starts_within (T : list TranscriptionResult) (i : nat)
    (s : TranscriptionResult) : bool :=
  ge (Finite (start s)) (mul (of_nat i) (actualSegmentDuration T))
  && lt (Finite (start s))
        (Math_min (mul (of_nat (i + 1)) (actualSegmentDuration T))
                  (totalDuration T)).

(** All the lyrics of a timeline, segment after segment. *)
Definition all_lyrics (tl : list TimelineSegment) : list TranscriptionResult :=
  List.concat (map lyrics tl).


(** A list of times goes strictly up. *)
Fixpoint increasingb (ts : list Q) : bool :=
  match ts with
  | a :: ((b :: _) as rest) => negb (Qle_bool b a) && increasingb rest
  | _ => true
  end.

Definition is_finite (a : number) : bool :=
  match a with Finite _ => true | _ => false end.

(** The same options with another quality. *)
Definition with_quality (options : RenderingOptions) (q : Quality)
  : RenderingOptions :=
  {| resolution := resolution options;
     framerate := framerate options;
     bitrate := bitrate options;
     format := format options;
     quality := q |}.

(** The rational that [estimateRenderingTime] rounds up when nothing in it
    is divided by zero. *)
Definition estimate_before_rounding
    (t w h : Q) (spans clips : nat) (q : Quality) : Q :=
  t * (inject_Z 2 * (w * h / (inject_Z 1920 * inject_Z 1080))
       * (inject_Z 1 + inject_Z (Z.of_nat spans) / t * (1 # 10))
       * (inject_Z 1 + inject_Z (Z.of_nat clips) / (t / inject_Z 10) * (2 # 10))
       * qualityMultipliers q).

(** The slot that [selectVideosForSegments] gives the clip at [index] when
    there are [n] clips for a total duration [total]. *)
Definition slot_at (total : number) (n index : nat) (video : BackgroundVideo)
  : VisualBackgroundGenerator.Slot :=
  {| VisualBackgroundGenerator.slot_video := video;
     VisualBackgroundGenerator.slot_startTime :=
       mul (of_nat index) (div total (of_nat n));
     VisualBackgroundGenerator.slot_endTime :=
       Math_min (mul (of_nat (index + 1)) (div total (of_nat n))) total |}.

End Properties.

(* ================================================================== *)
(** ** Sample inputs *)

Module Samples.

Import JsNumber Types Js VideoRenderingModule RenderingQueue.

Definition lyric (words : string) (from to : Q) : TranscriptionResult :=
  {| text := words; start := from; end_ := to; confidence := None |}.

Definition forest : BackgroundVideo :=
  {| id := "pexels-1"; url := "https://videos.example/forest.mp4";
     keywords := ["forest"%string]; duration := 30;
     thumbnail := "https://videos.example/forest.jpg"; source := stock |}.

Definition skyline : BackgroundVideo :=
  {| id := "pexels-2"; url := "https://videos.example/skyline.mp4";
     keywords := ["city"%string]; duration := 20;
     thumbnail := "https://videos.example/skyline.jpg"; source := stock |}.

Definition gold_on_black (th : Theme) (an : AnimationType) : VideoStyle :=
  {| fontFamily := "Arial"; fontSize := 24; fontColor := "#FFFFFF";
     backgroundColor := "#000000"; theme := th; animationType := an;
     textPosition := bottom |}.

Definition song : AudioFile :=
  {| uri := "file:///song.mp3"; fileName := "song.mp3"; size := 4000000;
     type := "audio/mpeg"; audio_duration := Some 25 |}.

Definition preview_options : RenderingOptions :=
  {| resolution := {| width := 854; height := 480 |}; framerate := 24;
     bitrate := "1M"; format := mp4; quality := preview |}.

(** A transcript that ends at 25 seconds. *)
Definition verse : list TranscriptionResult :=
  [lyric "Walking through the forest" 0 4;
   lyric "city lights are calling" (9 # 2) 12;
   lyric "forest dreams" 12 25].

Definition noon (_ : Stage) : Z := 1700000000000%Z.

Definition job (name : string) (tr : list TranscriptionResult)
    (vids : list BackgroundVideo) : Job :=
  {| job_id := name; audioFile := song; transcriptions := tr;
     backgroundVideos := vids; style := gold_on_black nature karaoke;
     options := preview_options |}.

Definition with_callback : Renderer := {| onProgressUpdate_set := true |}.

End Samples.

(* ================================================================== *)
(** ** Tactics *)

Import JsNumber Types Js VideoRenderingModule Properties.

(** Which awaited stage, if any, rejects. *)
Ltac stage_cases env :=
  destruct (rejects env PrepareVideoLayers) eqn:?;
  [|destruct (rejects env MergeLayers) eqn:?;
    [|destruct (rejects env AddTransitions) eqn:?;
      [|destruct (rejects env ExportVideo) eqn:?]]].

(** Unfolds [renderVideo] down to its effects. *)
Ltac open_rendering :=
  unfold renderVideo, updateProgress, prepareVideoLayers, mergeLayers,
    addTransitions, exportVideo, await.

(* ================================================================== *)
(** ** Facts about numbers *)

Lemma lt_finite (x y : Q) : lt (Finite x) (Finite y) = true <-> x < y.
Proof.
  simpl. rewrite negb_true_iff. split; intro H.
  - apply Qnot_le_lt. intro L. apply Qle_bool_iff in L. congruence.
  - destruct (Qle_bool y x) eqn:E; [|reflexivity].
    apply Qle_bool_iff in E. exfalso. exact (Qlt_not_le _ _ H E).
Qed.

Lemma lt_finite_false (x y : Q) : lt (Finite x) (Finite y) = false <-> y <= x.
Proof.
  simpl. rewrite negb_false_iff. apply Qle_bool_iff.
Qed.

Lemma ge_finite (x y : Q) : ge (Finite x) (Finite y) = true <-> y <= x.
Proof. simpl. apply Qle_bool_iff. Qed.

Lemma strict_eq_finite (x y : Q) : strict_eq (Finite x) (Finite y) = true <-> x == y.
Proof. simpl. apply Qeq_bool_iff. Qed.

Lemma inject_pos (c : Z) : (0 < c)%Z -> 0 < inject_Z c.
Proof. intro H. change 0 with (inject_Z 0). rewrite <- Zlt_Qlt. exact H. Qed.

Lemma div_finite (x y : Q) : ~ y == 0 -> div (Finite x) (Finite y) = Finite (x / y).
Proof.
  intro H. simpl. destruct (Qeq_bool y 0) eqn:E; [|reflexivity].
  apply Qeq_bool_iff in E. contradiction.
Qed.

(** [Math.max] over finite values is [-Infinity] for no value and otherwise
    one of the values, not below any of them. *)
Lemma Math_max_acc (qs : list Q) (m : Q) :
  exists t, fold_left Math_max2 (map Finite qs) (Finite m) = Finite t /\
            m <= t /\ Forall (fun q => q <= t) qs /\ (t = m \/ In t qs).
Proof.
  revert m. induction qs as [|q qs IH]; intro m; simpl.
  - exists m. repeat split; auto. apply Qle_refl.
  - destruct (Qle_bool q m) eqn:E; simpl.
    + apply Qle_bool_iff in E.
      destruct (IH m) as (t & Ht & Hm & Hall & Hin).
      exists t. repeat split; auto.
      * constructor; [eapply Qle_trans; eauto | exact Hall].
      * destruct Hin; auto.
    + assert (m < q) as L.
      { apply Qnot_le_lt. intro L. apply Qle_bool_iff in L. congruence. }
      destruct (IH q) as (t & Ht & Hm & Hall & Hin).
      exists t. repeat split; auto.
      * apply Qlt_le_weak. eapply Qlt_le_trans; eauto.
      * destruct Hin as [->|Hin]; auto.
Qed.

Lemma totalDuration_nil : totalDuration [] = NegInfinity.
Proof. reflexivity. Qed.

Lemma totalDuration_cons (s : TranscriptionResult) (T : list TranscriptionResult) :
  exists t, totalDuration (s :: T) = Finite t /\
            Forall (fun x => end_ x <= t) (s :: T) /\
            Exists (fun x => end_ x = t) (s :: T).
Proof.
  unfold totalDuration, Math_max. simpl.
  destruct (Math_max_acc (map end_ T) (end_ s)) as (t & Ht & Hm & Hall & Hin).
  rewrite map_map in Ht.
  exists t. split; [exact Ht|]. split.
  - constructor; [exact Hm|].
    rewrite Forall_forall in *. intros x Hx. apply Hall.
    apply in_map. exact Hx.
  - destruct Hin as [->|Hin].
    + apply Exists_cons_hd. reflexivity.
    + apply Exists_cons_tl. apply in_map_iff in Hin.
      destruct Hin as (x & Hx & Hin). apply Exists_exists. eauto.
Qed.

(* ================================================================== *)
(** ** The loop of [buildTimeline] *)

Lemma below_ceiling (q : Q) (j : nat) :
  (j < Z.to_nat (Qceiling q))%nat -> inject_Z (Z.of_nat j) < q.
Proof.
  intro H.
  assert ((Z.of_nat j <= Qceiling q - 1)%Z) as L by lia.
  apply Qle_lt_trans with (inject_Z (Qceiling q - 1)).
  - rewrite <- Zle_Qle. exact L.
  - apply Qceiling_lt.
Qed.

Lemma test_holds_below_rounds (n : number) (j : nat) :
  (j < rounds n)%nat -> lt (of_nat j) n = true.
Proof.
  destruct n as [| | |q]; simpl rounds; try lia.
  intro H. apply lt_finite. apply below_ceiling. exact H.
Qed.

Lemma segmentCount_shape (T : list TranscriptionResult) :
  segmentCount T = NegInfinity \/ exists c : Z, segmentCount T = of_Z c.
Proof.
  unfold segmentCount. destruct T as [|s T].
  - left. reflexivity.
  - right. destruct (totalDuration_cons s T) as (t & Ht & _). rewrite Ht.
    exists (Qceiling (t / inject_Z 10)). unfold targetSegmentDuration, of_Z.
    rewrite div_finite by discriminate. reflexivity.
Qed.

(** The bound given to the loop is not what stops it: after that many
    rounds the test [i < segmentCount] is false. *)
Lemma loop_exits_by_its_test (T : list TranscriptionResult) :
  lt (of_nat (rounds (segmentCount T))) (segmentCount T) = false.
Proof.
  destruct (segmentCount_shape T) as [E|(c & E)]; rewrite E.
  - reflexivity.
  - unfold of_Z, of_nat, of_Z. simpl rounds. rewrite Qceiling_Z.
    apply lt_finite_false. rewrite <- Zle_Qle. lia.
Qed.

Lemma build_loop_unfold
    (T : list TranscriptionResult) (vids : list BackgroundVideo)
    (d : BackgroundVideo) (sty : VideoStyle) :
  forall fuel i acc,
    (forall j, (j < i + fuel)%nat -> lt (of_nat j) (segmentCount T) = true) ->
    build_loop T vids d sty fuel i acc
    = acc ++ map (segment_at T vids d sty) (seq i fuel).
Proof.
  induction fuel as [|fuel IH]; intros i acc H; cbn [build_loop seq map].
  - now rewrite app_nil_r.
  - rewrite H by lia. rewrite IH.
    + now rewrite <- app_assoc.
    + intros j Hj. apply H. lia.
Qed.

Lemma buildTimeline_segments
    (T : list TranscriptionResult) (d : BackgroundVideo)
    (vids : list BackgroundVideo) (sty : VideoStyle) :
  buildTimeline T (d :: vids) sty
  = Return (map (segment_at T (d :: vids) d sty)
                (seq 0 (rounds (segmentCount T)))).
Proof.
  unfold buildTimeline, buildTimeline_run. simpl outcome.
  rewrite build_loop_unfold; [reflexivity|].
  intros j Hj. apply test_holds_below_rounds. exact Hj.
Qed.

(* ================================================================== *)
(** ** Lists of segments built from a counter *)

Lemma timeline_nth (f : nat -> TimelineSegment) (n j : nat) (seg : TimelineSegment) :
  nth_error (map f (seq 0 n)) j = Some seg <-> (j < n)%nat /\ seg = f j.
Proof.
  rewrite nth_error_map, nth_error_seq.
  destruct (Nat.ltb_spec j n) as [L|L]; simpl; split.
  - intro E. injection E as <-. auto.
  - intros [_ ->]. reflexivity.
  - discriminate.
  - intros [L' _]. lia.
Qed.

Lemma contiguous_map_seq (f : nat -> TimelineSegment) :
  forall k i,
    (forall j, (i <= j)%nat -> (S j < i + k)%nat ->
               strict_eq (endTime (f j)) (startTime (f (S j))) = true) ->
    contiguous (map f (seq i k)).
Proof.
  induction k as [|k IH]; intros i H; [exact I|].
  destruct k as [|k]; [exact I|].
  change (strict_eq (endTime (f i)) (startTime (f (S i))) = true
          /\ contiguous (map f (seq (S i) (S k)))).
  split.
  - apply H; lia.
  - apply IH. intros j Hj1 Hj2. apply H; lia.
Qed.

Lemma last_segment_map_seq (f : nat -> TimelineSegment) (n : nat) :
  last_segment (map f (seq 0 (S n))) = Some (f n).
Proof.
  unfold last_segment. rewrite seq_S, map_app, rev_app_distr. reflexivity.
Qed.

Lemma inject_succ (i : nat) :
  inject_Z (Z.of_nat (S i)) == inject_Z (Z.of_nat i) + 1.
Proof.
  rewrite Nat2Z.inj_succ. unfold Z.succ. rewrite inject_Z_plus. reflexivity.
Qed.

(* ================================================================== *)
(** ** A list cut into buckets *)

Section Buckets.

Variable A : Type.
Variable p : nat -> A -> bool.

Lemma bucket_without (x : A) (L : list A) (idx : list nat) :
  (forall i, In i idx -> p i x = false) ->
  map (fun i => filter (p i) (x :: L)) idx = map (fun i => filter (p i) L) idx.
Proof.
  intro H. apply map_ext_in. intros i Hi. simpl. now rewrite (H i Hi).
Qed.

Lemma bucket_with (x : A) (L : list A) (i0 : nat) (idx : list nat) :
  NoDup idx -> In i0 idx -> p i0 x = true ->
  (forall j, In j idx -> p j x = true -> j = i0) ->
  Permutation (List.concat (map (fun i => filter (p i) (x :: L)) idx))
              (x :: List.concat (map (fun i => filter (p i) L) idx)).
Proof.
  induction idx as [|i idx IH]; intros Hd Hin Hp Hu; [contradiction|].
  inversion Hd as [|? ? Hn Hd']; subst.
  cbn [map List.concat].
  destruct (Nat.eq_dec i i0) as [->|Ne].
  - rewrite bucket_without.
    + cbn [filter]. rewrite Hp. reflexivity.
    + intros j Hj. destruct (p j x) eqn:E; [|reflexivity].
      exfalso. apply Hn. rewrite <- (Hu j (or_intror Hj) E). exact Hj.
  - assert (p i x = false) as Ef.
    { destruct (p i x) eqn:E; [|reflexivity].
      exfalso. apply Ne. apply Hu; [left; reflexivity|exact E]. }
    destruct Hin as [E|Hin]; [contradiction|].
    rewrite (IH Hd' Hin Hp (fun j Hj => Hu j (or_intror Hj))).
    cbn [filter]. rewrite Ef.
    symmetry. apply Permutation_middle.
Qed.

(** When every element passes the test of exactly one bucket, the buckets
    put end to end hold the elements of the list, each as often as the list
    does. *)
Lemma buckets_partition (n : nat) (L : list A) :
  (forall x, In x L ->
     exists i, (i < n)%nat /\ p i x = true /\
               forall j, (j < n)%nat -> p j x = true -> j = i) ->
  Permutation (List.concat (map (fun i => filter (p i) L) (seq 0 n))) L.
Proof.
  induction L as [|x L IH]; intro H.
  - clear H. induction (seq 0 n) as [|i idx IHi]; simpl; [constructor|exact IHi].
  - destruct (H x (or_introl eq_refl)) as (i0 & Hi & Hp & Hu).
    rewrite (@bucket_with x L i0 (seq 0 n)).
    + constructor. apply IH. intros y Hy. apply H. right. exact Hy.
    + apply seq_NoDup.
    + apply in_seq. lia.
    + exact Hp.
    + intros j Hj. apply Hu. apply in_seq in Hj. lia.
Qed.

End Buckets.

(* ================================================================== *)
(** ** Timelines of a transcript with a positive total duration *)

Section PositiveDuration.

Variable T : list TranscriptionResult.
Variable t : Q.
Hypothesis total_is : totalDuration T = Finite t.
Hypothesis total_pos : 0 < t.

Variable d : BackgroundVideo.
Variable vids : list BackgroundVideo.
Variable sty : VideoStyle.

Lemma count_pos : (0 < count_of t)%Z.
Proof.
  unfold count_of.
  assert (0 < t / inject_Z 10) as P.
  { apply Qlt_shift_div_l; [reflexivity|]. rewrite Qmult_0_l. exact total_pos. }
  pose proof (Qle_ceiling (t / inject_Z 10)) as C.
  rewrite Zlt_Qlt. eapply Qlt_le_trans; eauto.
Qed.

Lemma count_nonzero : ~ inject_Z (count_of t) == 0.
Proof.
  intro E. pose proof (inject_pos count_pos) as P. rewrite E in P.
  exact (Qlt_irrefl _ P).
Qed.

Lemma segmentCount_is : segmentCount T = of_Z (count_of t).
Proof.
  unfold segmentCount. rewrite total_is. unfold targetSegmentDuration, of_Z.
  rewrite div_finite by discriminate. reflexivity.
Qed.

Lemma actualSegmentDuration_is : actualSegmentDuration T = Finite (piece_of t).
Proof.
  unfold actualSegmentDuration. rewrite segmentCount_is, total_is.
  unfold of_Z. rewrite div_finite by exact count_nonzero. reflexivity.
Qed.

Lemma rounds_is : rounds (segmentCount T) = Z.to_nat (count_of t).
Proof.
  rewrite segmentCount_is. unfold of_Z. simpl. now rewrite Qceiling_Z.
Qed.

Lemma piece_pos : 0 < piece_of t.
Proof.
  unfold piece_of. apply Qlt_shift_div_l.
  - exact (inject_pos count_pos).
  - rewrite Qmult_0_l. exact total_pos.
Qed.

Lemma pieces_make_total : inject_Z (count_of t) * piece_of t == t.
Proof.
  unfold piece_of. field. exact count_nonzero.
Qed.

(** Up to the last one, the multiples of the piece stay within the total. *)
Lemma multiple_le_total (k : nat) :
  (k <= Z.to_nat (count_of t))%nat -> inject_Z (Z.of_nat k) * piece_of t <= t.
Proof.
  intro H. rewrite <- pieces_make_total at 2.
  apply Qmult_le_compat_r.
  - rewrite <- Zle_Qle. pose proof count_pos. lia.
  - apply Qlt_le_weak. exact piece_pos.
Qed.

Lemma segment_startTime (i : nat) :
  startTime (segment_at T (d :: vids) d sty i)
  = Finite (inject_Z (Z.of_nat i) * piece_of t).
Proof.
  unfold segment_at. simpl startTime. rewrite actualSegmentDuration_is.
  reflexivity.
Qed.

Lemma segment_endTime (i : nat) :
  (i < Z.to_nat (count_of t))%nat ->
  endTime (segment_at T (d :: vids) d sty i)
  = Finite (inject_Z (Z.of_nat (S i)) * piece_of t).
Proof.
  intro H. unfold segment_at. simpl endTime.
  rewrite actualSegmentDuration_is, total_is, Nat.add_1_r.
  unfold of_nat, of_Z, mul, Math_min.
  assert (lt (Finite t) (Finite (inject_Z (Z.of_nat (S i)) * piece_of t)) = false)
    as E.
  { apply lt_finite_false. apply multiple_le_total. lia. }
  rewrite E. reflexivity.
Qed.

Lemma segment_lyrics (i : nat) (s : TranscriptionResult) :
  (i < Z.to_nat (count_of t))%nat ->
  In s (lyrics (segment_at T (d :: vids) d sty i)) <->
  In s T /\ inject_Z (Z.of_nat i) * piece_of t <= start s
         /\ start s < inject_Z (Z.of_nat (S i)) * piece_of t.
Proof.
  intro H.
  pose proof (segment_startTime i) as Es.
  pose proof (segment_endTime H) as Ee.
  unfold segment_at in *. cbn [startTime endTime lyrics] in *.
  rewrite filter_In. cbv beta.
  rewrite Es, Ee, andb_true_iff, ge_finite, lt_finite.
  tauto.
Qed.

Lemma timeline_is :
  buildTimeline T (d :: vids) sty
  = Return (map (segment_at T (d :: vids) d sty)
                (seq 0 (Z.to_nat (count_of t)))).
Proof. rewrite buildTimeline_segments, rounds_is. reflexivity. Qed.

(** *** Tiling *)

Local Abbreviation seg := (segment_at T (d :: vids) d sty).
Local Abbreviation n := (Z.to_nat (count_of t)).

Lemma n_pos : (0 < n)%nat.
Proof. pose proof count_pos. lia. Qed.

Lemma n_is_count : inject_Z (Z.of_nat n) = inject_Z (count_of t).
Proof. pose proof count_pos. now rewrite Z2Nat.id by lia. Qed.

Lemma segment_length_is (i : nat) :
  (i < n)%nat ->
  exists q, segment_length (seg i) = Finite q /\ q == piece_of t.
Proof.
  intro H. unfold segment_length.
  rewrite segment_startTime, segment_endTime by exact H.
  eexists. split; [reflexivity|]. rewrite inject_succ. ring.
Qed.

Lemma sum_from (k : nat) :
  forall i acc, (i + k <= n)%nat ->
    exists q,
      fold_left (fun acc s => add acc (segment_length s))
                (map seg (seq i k)) (Finite acc) = Finite q
      /\ q == acc + inject_Z (Z.of_nat k) * piece_of t.
Proof.
  induction k as [|k IH]; intros i acc H.
  - exists acc. split; [reflexivity|]. simpl. ring.
  - cbn [seq map fold_left].
    destruct (@segment_length_is i) as (q & Eq & Hq); [lia|].
    rewrite Eq. cbn [add].
    destruct (IH (S i) (acc + q)) as (r & Er & Hr); [lia|].
    exists r. split; [exact Er|].
    rewrite Hr, Hq, inject_succ. ring.
Qed.

Lemma tiled : tiles (map seg (seq 0 n)) (Finite t).
Proof.
  pose proof n_pos as P.
  destruct (Nat.lt_exists_pred 0 n P) as (m & E & _).
  repeat split.
  - apply contiguous_map_seq. intros j _ Hj.
    rewrite segment_startTime, segment_endTime by lia.
    apply strict_eq_finite. reflexivity.
  - exists (seg 0%nat). split.
    + rewrite E. reflexivity.
    + rewrite segment_startTime.
      apply strict_eq_finite. simpl. ring.
  - exists (seg m). split; [rewrite E; apply last_segment_map_seq|].
    rewrite segment_endTime by lia.
    apply strict_eq_finite.
    rewrite <- E, n_is_count.
    apply pieces_make_total.
  - unfold sum_of_lengths, of_Z.
    destruct (@sum_from n 0%nat (inject_Z 0)) as (q & Eq & Hq); [lia|].
    rewrite Eq. apply strict_eq_finite.
    rewrite Hq, n_is_count, pieces_make_total. simpl. ring.
Qed.

Lemma cut_evenly : evenly_cut (map seg (seq 0 n)) (Finite t).
Proof.
  unfold evenly_cut. rewrite length_map, length_seq. split.
  - unfold of_nat, of_Z. rewrite n_is_count.
    rewrite div_finite by discriminate.
    apply strict_eq_finite. reflexivity.
  - apply Forall_forall. intros s Hs.
    apply in_map_iff in Hs. destruct Hs as (i & <- & Hi).
    apply in_seq in Hi.
    destruct (@segment_length_is i) as (q & Eq & Hq); [lia|].
    rewrite Eq. unfold of_nat, of_Z. rewrite n_is_count.
    rewrite div_finite by exact count_nonzero.
    apply strict_eq_finite. exact Hq.
Qed.

(** *** Ownership of spans *)

Lemma back_to_multiple (x : Q) : x / piece_of t * piece_of t == x.
Proof.
  field. intro E. pose proof piece_pos as P. rewrite E in P.
  exact (Qlt_irrefl _ P).
Qed.

(** The counter of the segment that holds offset [x]. *)
Lemma owner_index (x : Q) :
  0 <= x -> x < t ->
  let i := Z.to_nat (Qfloor (x / piece_of t)) in
  (i < n)%nat /\
  inject_Z (Z.of_nat i) * piece_of t <= x /\
  x < inject_Z (Z.of_nat (S i)) * piece_of t.
Proof.
  intros H0 Ht. pose proof piece_pos as P.
  assert (0 <= x / piece_of t) as Q0.
  { apply Qle_shift_div_l; [exact P|]. now rewrite Qmult_0_l. }
  assert ((0 <= Qfloor (x / piece_of t))%Z) as F0.
  { change 0%Z with (Qfloor 0). apply Qfloor_resp_le. exact Q0. }
  assert (inject_Z (Qfloor (x / piece_of t)) * piece_of t <= x) as Lo.
  { rewrite <- (back_to_multiple x) at 2.
    apply Qmult_le_r; [exact P|]. apply Qfloor_le. }
  assert (x < (inject_Z (Qfloor (x / piece_of t)) + 1) * piece_of t) as Hi.
  { rewrite <- (back_to_multiple x) at 1.
    apply Qmult_lt_r; [exact P|].
    pose proof (Qlt_floor (x / piece_of t)) as L.
    rewrite inject_Z_plus in L. exact L. }
  cbv zeta. rewrite inject_succ, Z2Nat.id by exact F0.
  split; [|split; assumption].
  assert ((Qfloor (x / piece_of t) < count_of t)%Z) as L; [|lia].
  rewrite Zlt_Qlt. apply (Qmult_lt_r _ _ (piece_of t) P).
  rewrite pieces_make_total. eapply Qle_lt_trans; eauto.
Qed.

(** Two segments whose intervals hold the same offset are the same. *)
Lemma one_interval_only (x : Q) (i j : nat) :
  inject_Z (Z.of_nat i) * piece_of t <= x ->
  x < inject_Z (Z.of_nat (S i)) * piece_of t ->
  inject_Z (Z.of_nat j) * piece_of t <= x ->
  x < inject_Z (Z.of_nat (S j)) * piece_of t ->
  i = j.
Proof.
  intros Li Hi Lj Hj. pose proof piece_pos as P.
  assert (inject_Z (Z.of_nat i) < inject_Z (Z.of_nat (S j))) as A.
  { apply (Qmult_lt_r _ _ (piece_of t) P). eapply Qle_lt_trans; eauto. }
  assert (inject_Z (Z.of_nat j) < inject_Z (Z.of_nat (S i))) as B.
  { apply (Qmult_lt_r _ _ (piece_of t) P). eapply Qle_lt_trans; eauto. }
  rewrite <- Zlt_Qlt in A, B. lia.
Qed.

Lemma span_owned (s : TranscriptionResult) :
  In s T -> 0 <= start s -> start s < t ->
  owned_by (map seg (seq 0 n)) s (Z.to_nat (Qfloor (start s / piece_of t))).
Proof.
  intros Hin H0 Ht.
  destruct (owner_index H0 Ht) as (Hn & Lo & Hi).
  split.
  - exists (seg (Z.to_nat (Qfloor (start s / piece_of t)))).
    split; [apply timeline_nth; auto|].
    split; [apply segment_lyrics; auto|].
    unfold covers. rewrite segment_startTime, segment_endTime by exact Hn.
    split; [apply ge_finite | apply lt_finite]; assumption.
  - intros j seg' Hj Hs. apply timeline_nth in Hj. destruct Hj as (Hj & ->).
    apply segment_lyrics in Hs; [|exact Hj]. destruct Hs as (_ & Lj & Hj').
    eapply one_interval_only; eauto.
Qed.

(** The last segment ends at the total duration. *)
Lemma final_boundary (final : TimelineSegment) :
  last_segment (map seg (seq 0 n)) = Some final ->
  exists q, endTime final = Finite q /\ q == t.
Proof.
  pose proof n_pos as P.
  destruct (Nat.lt_exists_pred 0 n P) as (m & E & _).
  rewrite E, last_segment_map_seq. intro H. injection H as <-.
  rewrite segment_endTime by lia. eexists. split; [reflexivity|].
  rewrite <- E, n_is_count. apply pieces_make_total.
Qed.

(** *** More on the segments *)

Lemma starts_within_iff (i : nat) (s : TranscriptionResult) :
  (i < n)%nat ->
  starts_within T i s = true <->
  inject_Z (Z.of_nat i) * piece_of t <= start s
  /\ start s < inject_Z (Z.of_nat (S i)) * piece_of t.
Proof.
  intro H.
  pose proof (segment_startTime i) as Es.
  pose proof (segment_endTime H) as Ee.
  unfold segment_at in *. cbn [startTime endTime] in *.
  unfold starts_within.
  rewrite Es, Ee, andb_true_iff, ge_finite, lt_finite. tauto.
Qed.

(** The piece is at most the target of 10, and more than half of it as soon
    as there are two segments. *)
Lemma piece_bounds :
  0 < piece_of t /\ piece_of t <= 10 /\
  ((2 <= n)%nat -> 5 < piece_of t).
Proof.
  pose proof piece_pos as P. pose proof count_pos as C.
  pose proof (inject_pos C) as IC.
  pose proof (Qle_ceiling (t / inject_Z 10)) as Up.
  pose proof (Qceiling_lt (t / inject_Z 10)) as Lo.
  fold (count_of t) in Up, Lo.
  assert (t <= inject_Z (count_of t) * 10) as Up'.
  { apply (Qmult_le_r _ _ (inject_Z 10)) in Up; [|reflexivity].
    setoid_replace (t / inject_Z 10 * inject_Z 10) with t in Up
      by (field; discriminate).
    exact Up. }
  assert ((inject_Z (count_of t) - 1) * 10 < t) as Lo'.
  { unfold Z.sub in Lo. rewrite inject_Z_plus in Lo.
    change (inject_Z (- 1)) with (- (1)) in Lo.
    apply (Qmult_lt_r _ _ (inject_Z 10)) in Lo; [|reflexivity].
    setoid_replace (t / inject_Z 10 * inject_Z 10) with t in Lo
      by (field; discriminate).
    exact Lo. }
  split; [exact P|]. split.
  - unfold piece_of. apply Qle_shift_div_r; [exact IC|].
    rewrite Qmult_comm. exact Up'.
  - intro H2. unfold piece_of. apply Qlt_shift_div_l; [exact IC|].
    assert (2 <= inject_Z (count_of t)) as G.
    { change 2 with (inject_Z 2). rewrite <- Zle_Qle. lia. }
    eapply Qle_lt_trans; [|exact Lo']. lra.
Qed.

(** Put end to end, the lyrics of the segments are the spans of the
    transcript, none lost and none repeated. *)
Lemma lyrics_partition :
  (forall s, In s T -> 0 <= start s /\ start s < t) ->
  Permutation (all_lyrics (map seg (seq 0 n))) T.
Proof.
  intro B. unfold all_lyrics. rewrite map_map.
  change (Permutation
            (List.concat (map (fun i => filter (starts_within T i) T) (seq 0 n)))
            T).
  apply buckets_partition. intros s Hs.
  destruct (B s Hs) as (H0 & H1).
  destruct (owner_index H0 H1) as (Hn & Lo & Hi).
  exists (Z.to_nat (Qfloor (start s / piece_of t))).
  split; [exact Hn|]. split; [apply starts_within_iff; auto|].
  intros j Hj Pj. apply starts_within_iff in Pj; [|exact Hj].
  destruct Pj as (Lj & Hj'). symmetry. eapply one_interval_only; eauto.
Qed.

End PositiveDuration.


(* ================================================================== *)
(** ** The timeline tiles the track *)


Lemma positive_total (T : list TranscriptionResult) :
  Exists (fun s => 0 < end_ s) T ->
  exists t, totalDuration T = Finite t /\ 0 < t.
Proof.
  intro H. destruct T as [|s T]; [inversion H|].
  destruct (totalDuration_cons s T) as (t & Et & Hall & _).
  exists t. split; [exact Et|].
  apply Exists_exists in H. destruct H as (x & Hx & Px).
  rewrite Forall_forall in Hall. eapply Qlt_le_trans; eauto.
Qed.




(* ================================================================== *)
(** ** The empty transcript *)

(** C2, as the code has it.  With an empty transcript and at least one clip,
    [buildTimeline] does not throw: the total duration is [-Infinity], so is
    the segment count, the loop does not run and the timeline returned has
    no segment. *)
Theorem empty_transcript_gives_empty_timeline :
  forall (clips : list BackgroundVideo) (sty : VideoStyle),
    clips <> [] ->
    buildTimeline [] clips sty = Return [] /\
    totalDuration [] = NegInfinity /\
    segmentCount [] = NegInfinity.
Proof.
  intros clips sty H. destruct clips as [|d vids]; [congruence|].
  repeat split.
Qed.

Lemma empty_transcript_gives_empty_timeline_witness :
  buildTimeline [] [Samples.forest] (Samples.gold_on_black city fade_anim)
    = Return [] /\
  totalDuration [] = NegInfinity /\
  segmentCount [] = NegInfinity.
Proof.
  apply empty_transcript_gives_empty_timeline. discriminate.
Defined.

(** C2 as stated fails: for the empty transcript and one clip the total
    duration is not 0 and the result is not a one-segment timeline. *)
Lemma empty_transcript_has_no_segment :
  strict_eq (totalDuration []) (of_Z 0) = false /\
  ~ exists only,
      buildTimeline [] [Samples.forest] (Samples.gold_on_black nature karaoke)
      = Return [only].
Proof.
  split; [reflexivity|]. intros (only & H). discriminate H.
Qed.

(* ================================================================== *)
(** ** Every span has one segment *)



(** Outside the hypotheses of C3 the upper bound of the final segment is
    exclusive like the others: a span of no length that starts where the
    track ends is listed by no segment. *)
Lemma span_on_final_boundary_is_dropped :
  let closing := Samples.lyric "end" 25 25 in
  exists tl,
    buildTimeline (Samples.verse ++ [closing]) [Samples.forest]
      (Samples.gold_on_black nature karaoke) = Return tl /\
    Forall (fun seg => ~ In closing (lyrics seg)) tl.
Proof.
  eexists. split; [vm_compute; reflexivity|].
  repeat constructor; simpl; intuition discriminate.
Qed.

(* ================================================================== *)
(** ** The error for a missing clip list *)

Lemma buildTimeline_returns
    (T : list TranscriptionResult) (clips : list BackgroundVideo)
    (sty : VideoStyle) :
  clips <> [] -> exists tl, buildTimeline T clips sty = Return tl.
Proof.
  destruct clips as [|d vids]; [congruence|]. intros _.
  eexists. apply buildTimeline_segments.
Qed.

(** C4.  [buildTimeline] throws exactly when the clip list is empty, and
    then it throws the error for missing background videos.  At that point
    its array [timeline] holds no segment, and a [renderVideo] that fails
    this way has entered none of its awaited stages; all it did before was
    to report the percentages 0 and 10 to the progress callback, if one is
    set. *)
Theorem no_clips_error_exactly_when_empty :
  forall (T : list TranscriptionResult) (clips : list BackgroundVideo)
         (sty : VideoStyle),
    (buildTimeline T clips sty = Throw no_background_videos <-> clips = []) /\
    (forall e, buildTimeline T clips sty = Throw e -> e = no_background_videos) /\
    (clips = [] ->
     timeline_var (buildTimeline_run T clips sty) = [] /\
     forall this env audio opts,
       awaited (fst (renderVideo this env audio T clips sty opts)) = [] /\
       percents (fst (renderVideo this env audio T clips sty opts))
       = if onProgressUpdate_set this then [0; 10] else []).
Proof.
  intros T clips sty. split; [|split].
  - split.
    + intro H. destruct clips as [|d vids]; [reflexivity|].
      rewrite buildTimeline_segments in H. discriminate H.
    + intros ->. reflexivity.
  - intros e H. destruct clips as [|d vids].
    + injection H as <-. reflexivity.
    + rewrite buildTimeline_segments in H. discriminate H.
  - intros ->. split; [reflexivity|].
    intros this env audio opts. unfold renderVideo, updateProgress.
    destruct (onProgressUpdate_set this); split; reflexivity.
Qed.

Lemma no_clips_error_exactly_when_empty_witness :
  buildTimeline Samples.verse [] (Samples.gold_on_black nature karaoke)
    = Throw no_background_videos /\
  timeline_var (buildTimeline_run Samples.verse []
                  (Samples.gold_on_black nature karaoke)) = [] /\
  awaited (fst (renderVideo Samples.with_callback (resolving Samples.noon)
                  Samples.song Samples.verse []
                  (Samples.gold_on_black nature karaoke)
                  Samples.preview_options)) = [].
Proof.
  destruct (no_clips_error_exactly_when_empty Samples.verse []
              (Samples.gold_on_black nature karaoke)) as (A & _ & C).
  split; [apply A; reflexivity|].
  destruct (C eq_refl) as (C1 & C2). split; [exact C1|apply C2].
Defined.

(* ================================================================== *)
(** ** Transitions of the first and the last segment *)

Lemma first_transitions (n : number) (sty : VideoStyle) :
  getTransitionsForSegment 0 n sty = {| t_in := fade; t_out := none |}.
Proof. reflexivity. Qed.

Lemma last_transitions (m : nat) (sty : VideoStyle) :
  getTransitionsForSegment (S m) (of_nat (S (S m))) sty
  = {| t_in := none; t_out := fade |}.
Proof.
  unfold getTransitionsForSegment.
  assert (strict_eq (of_nat (S m)) (of_Z 0) = false) as E0.
  { unfold of_nat, of_Z. simpl strict_eq.
    destruct (Qeq_bool (inject_Z (Z.of_nat (S m))) (inject_Z 0)) eqn:E;
      [|reflexivity].
    apply Qeq_bool_iff in E. rewrite inject_Z_injective in E. lia. }
  assert (strict_eq (of_nat (S m)) (sub (of_nat (S (S m))) (of_Z 1)) = true)
    as E1.
  { unfold of_nat, of_Z, sub. cbn [neg add]. apply strict_eq_finite.
    rewrite (inject_succ (S m)).
    change (inject_Z 1) with 1. ring. }
  rewrite E0, E1. reflexivity.
Qed.

(** C5, as the code has it.  In every timeline that [buildTimeline] returns,
    segment 0 fades in and has no transition out, also when other segments
    follow; and when the timeline has at least two segments, the last one has
    no transition in and fades out, whatever the theme. *)
Theorem transitions_of_first_and_last_segment :
  forall (T : list TranscriptionResult) (clips : list BackgroundVideo)
         (sty : VideoStyle) (tl : list TimelineSegment),
    buildTimeline T clips sty = Return tl ->
    (forall first, hd_error tl = Some first ->
       in_of first = Some fade /\ out_of first = Some none) /\
    (forall final, (2 <= List.length tl)%nat -> last_segment tl = Some final ->
       in_of final = Some none /\ out_of final = Some fade).
Proof.
  intros T clips sty tl H.
  destruct clips as [|d vids]; [discriminate H|].
  rewrite buildTimeline_segments in H. injection H as <-.
  split.
  - intros first Hf.
    destruct (rounds (segmentCount T)) as [|m]; [discriminate Hf|].
    injection Hf as <-. split; reflexivity.
  - intros final Hlen Hf.
    rewrite length_map, length_seq in Hlen.
    destruct (rounds (segmentCount T)) as [|[|m]] eqn:R; try lia.
    rewrite last_segment_map_seq in Hf. injection Hf as <-.
    assert (segmentCount T = of_nat (S (S m))) as E.
    { destruct (segmentCount_shape T) as [E|(c & E)];
        rewrite E in R; [discriminate R|].
      rewrite E. unfold of_Z in R. simpl in R. rewrite Qceiling_Z in R.
      unfold of_nat. f_equal. lia. }
    unfold segment_at, in_of, out_of. cbn [transitions option_map].
    rewrite E, last_transitions. split; reflexivity.
Qed.

Lemma transitions_of_first_and_last_segment_witness :
  exists tl,
    buildTimeline Samples.verse [Samples.forest]
      (Samples.gold_on_black abstract karaoke) = Return tl /\
    (forall first, hd_error tl = Some first ->
       in_of first = Some fade /\ out_of first = Some none) /\
    (forall final, (2 <= List.length tl)%nat -> last_segment tl = Some final ->
       in_of final = Some none /\ out_of final = Some fade).
Proof.
  eexists. split; [vm_compute; reflexivity|].
  apply (transitions_of_first_and_last_segment Samples.verse [Samples.forest]
           (Samples.gold_on_black abstract karaoke)).
  vm_compute. reflexivity.
Defined.

(** C5 as stated fails on both counts.  A track of 25 seconds gives three
    segments and segment 0 has no transition out; a track of 4 seconds gives
    one segment, which is also the last, and it does not fade out. *)
Lemma first_segment_has_no_transition_out :
  (exists tl first,
     buildTimeline Samples.verse [Samples.forest]
       (Samples.gold_on_black nature karaoke) = Return tl /\
     List.length tl = 3%nat /\
     hd_error tl = Some first /\ ~ out_of first <> Some none) /\
  (exists only,
     buildTimeline [Samples.lyric "Walking through the forest" 0 4]
       [Samples.forest] (Samples.gold_on_black nature karaoke)
     = Return [only] /\
     last_segment [only] = Some only /\
     out_of only <> Some fade).
Proof.
  split.
  - eexists. eexists. split; [vm_compute; reflexivity|].
    split; [reflexivity|]. split; [reflexivity|].
    intro H. apply H. reflexivity.
  - eexists. split; [vm_compute; reflexivity|].
    split; [reflexivity|]. discriminate.
Qed.

(* ================================================================== *)
(** ** The karaoke animation *)




(* ================================================================== *)
(** ** Progress of one rendering *)

Lemma non_decreasingb_sound (ps : list Q) :
  non_decreasingb ps = true -> non_decreasing ps.
Proof.
  induction ps as [|p ps IH]; intros H i a b Ha Hb.
  - destruct i; discriminate.
  - destruct ps as [|q ps]; [destruct i as [|[|]]; discriminate|].
    cbn [non_decreasingb] in H. apply andb_true_iff in H. destruct H as (H1 & H2).
    destruct i as [|i].
    + injection Ha as <-. injection Hb as <-. apply Qle_bool_iff. exact H1.
    + apply (IH H2 i); assumption.
Qed.

Lemma in_rangeb_sound (ps : list Q) :
  forallb in_rangeb ps = true -> Forall in_range ps.
Proof.
  rewrite forallb_forall, Forall_forall. intros H p Hp.
  specialize (H p Hp). apply andb_true_iff in H. destruct H as (H1 & H2).
  split; apply Qle_bool_iff; assumption.
Qed.

(** The percentages of a rendering: with a callback they are the first
    values of 0, 10, 25, 40, 60, 80, 95, 100, all of them when the rendering
    returns; without a callback there is none. *)
Lemma percents_of_rendering
    (this : Renderer) (env : Env) (audio : AudioFile)
    (T : list TranscriptionResult) (clips : list BackgroundVideo)
    (sty : VideoStyle) (opts : RenderingOptions) :
  let r := renderVideo this env audio T clips sty opts in
  exists k,
    percents (fst r)
    = (if onProgressUpdate_set this
       then firstn k [0; 10; 25; 40; 60; 80; 95; 100] else []) /\
    (is_thrown (snd r) = false -> k = 8%nat).
Proof.
  open_rendering.
  destruct (buildTimeline T clips sty) as [tl|e]; [stage_cases env|];
    destruct (onProgressUpdate_set this); cbn.
  all: first
    [ exists 8%nat; split; [reflexivity|reflexivity]
    | exists 7%nat; split; [reflexivity|discriminate]
    | exists 6%nat; split; [reflexivity|discriminate]
    | exists 5%nat; split; [reflexivity|discriminate]
    | exists 3%nat; split; [reflexivity|discriminate]
    | exists 2%nat; split; [reflexivity|discriminate] ].
Qed.

Lemma first_percents_fine (k : nat) :
  Forall in_range (firstn k [0; 10; 25; 40; 60; 80; 95; 100]) /\
  non_decreasing (firstn k [0; 10; 25; 40; 60; 80; 95; 100]).
Proof.
  do 9 (destruct k as [|k];
        [split; [apply in_rangeb_sound | apply non_decreasingb_sound];
         reflexivity|]).
  split; [apply in_rangeb_sound | apply non_decreasingb_sound]; reflexivity.
Qed.

(** C7, as the code has it.  In every rendering, whether it returns or
    fails, each percentage handed to the progress callback lies in
    [[0, 100]] and the percentages never decrease.  When the rendering
    returns and a callback is set, the last percentage is 100; when no
    callback is set, as for the renderer of the queue, nothing is reported. *)
Theorem progress_is_bounded_and_monotone :
  forall (this : Renderer) (env : Env) (audio : AudioFile)
         (T : list TranscriptionResult) (clips : list BackgroundVideo)
         (sty : VideoStyle) (opts : RenderingOptions),
    let r := renderVideo this env audio T clips sty opts in
    Forall in_range (percents (fst r)) /\
    non_decreasing (percents (fst r)) /\
    (is_thrown (snd r) = false ->
     if onProgressUpdate_set this
     then last_percent (percents (fst r)) = Some 100
     else percents (fst r) = []).
Proof.
  intros this env audio T clips sty opts r.
  destruct (percents_of_rendering this env audio T clips sty opts)
    as (k & E & K).
  fold r in E, K. rewrite E.
  destruct (onProgressUpdate_set this).
  - destruct (first_percents_fine k) as (A & B).
    split; [exact A|]. split; [exact B|].
    intro S. rewrite (K S). reflexivity.
  - split; [constructor|]. split; [|reflexivity].
    intros [|i] p q Hp; discriminate Hp.
Qed.

Lemma progress_is_bounded_and_monotone_witness :
  let r := renderVideo Samples.with_callback (resolving Samples.noon)
             Samples.song Samples.verse [Samples.forest]
             (Samples.gold_on_black nature karaoke) Samples.preview_options in
  percents (fst r) = [0; 10; 25; 40; 60; 80; 95; 100] /\
  Forall in_range (percents (fst r)) /\
  non_decreasing (percents (fst r)) /\
  last_percent (percents (fst r)) = Some 100.
Proof.
  destruct (progress_is_bounded_and_monotone
              Samples.with_callback (resolving Samples.noon)
              Samples.song Samples.verse [Samples.forest]
              (Samples.gold_on_black nature karaoke) Samples.preview_options)
    as (A & B & C).
  split; [vm_compute; reflexivity|].
  split; [exact A|]. split; [exact B|].
  apply C. vm_compute. reflexivity.
Defined.

(** C7 as stated fails for a renderer built without a callback, which is how
    the queue builds its own: the rendering returns and no percentage was
    reported, so the reports do not end at 100. *)
Lemma rendering_without_callback_reports_nothing :
  let r := renderVideo RenderingQueue.renderer (resolving Samples.noon)
             Samples.song Samples.verse [Samples.forest]
             (Samples.gold_on_black nature karaoke) Samples.preview_options in
  snd r = Return "final_video_1700000000000.mp4"%string /\
  percents (fst r) = [] /\
  last_percent (percents (fst r)) <> Some 100.
Proof.
  split; [vm_compute; reflexivity|].
  split; [vm_compute; reflexivity|].
  vm_compute. discriminate.
Qed.

(* ================================================================== *)
(** ** A rendering that fails *)

(** A failing rendering throws the general error; the last thing it did was
    to log the error that made it fail. *)
Lemma failure_of_rendering
    (this : Renderer) (env : Env) (audio : AudioFile)
    (T : list TranscriptionResult) (clips : list BackgroundVideo)
    (sty : VideoStyle) (opts : RenderingOptions) (e : Error) :
  let r := renderVideo this env audio T clips sty opts in
  snd r = Throw e ->
  e = render_failed /\
  exists cause,
    last_effect (fst r) = Some (ConsoleError cause) /\
    triggering env T clips sty (fst r) cause.
Proof.
  unfold triggering. open_rendering.
  destruct (buildTimeline T clips sty) as [tl|e0]; [stage_cases env|];
    destruct (onProgressUpdate_set this); cbn;
    intro H; try discriminate H; injection H as <-;
    (split; [reflexivity|]); eexists; (split; [reflexivity|]);
    solve [ left; reflexivity
          | right; eexists; split; [|eassumption]; cbn; tauto ].
Qed.

(** Whether a rendering returns or fails does not depend on the callback. *)
Lemma completion_ignores_callback
    (this this' : Renderer) (env : Env) (audio : AudioFile)
    (T : list TranscriptionResult) (clips : list BackgroundVideo)
    (sty : VideoStyle) (opts : RenderingOptions) :
  snd (renderVideo this env audio T clips sty opts)
  = snd (renderVideo this' env audio T clips sty opts).
Proof.
  open_rendering.
  destruct (buildTimeline T clips sty) as [tl|e0]; [stage_cases env|];
    destruct (onProgressUpdate_set this), (onProgressUpdate_set this');
    reflexivity.
Qed.

(** With a clip and stages that resolve, a rendering returns the path of the
    exported video. *)
Lemma rendering_returns
    (this : Renderer) (env : Env) (audio : AudioFile)
    (T : list TranscriptionResult) (clips : list BackgroundVideo)
    (sty : VideoStyle) (opts : RenderingOptions) :
  clips <> [] -> (forall s, rejects env s = None) ->
  snd (renderVideo this env audio T clips sty opts)
  = Return ("final_video_" ++ decimal (Date_now env ExportVideo) ++ "."
            ++ format_name (format opts))%string.
Proof.
  intros Hc Hr. destruct (buildTimeline_returns T sty Hc) as (tl & E).
  open_rendering. rewrite E, !Hr.
  destruct (onProgressUpdate_set this); reflexivity.
Qed.

(* ================================================================== *)
(** ** The queue *)

Import RenderingQueue.

Lemma balanced_initial : balanced initial.
Proof. split; reflexivity. Qed.

(** What a balanced state looks like. *)
Lemma balanced_cases (st : State) :
  balanced st ->
  (isProcessing st = false /\ awaiting st = [] /\ timers st = 0%nat
   /\ queue st = []) \/
  (isProcessing st = true /\ (exists j, awaiting st = [j]) /\ timers st = 0%nat) \/
  (isProcessing st = true /\ awaiting st = [] /\ timers st = 1%nat).
Proof.
  intros (H1 & H2).
  destruct (isProcessing st) eqn:P, (awaiting st) as [|j [|j' l]] eqn:A;
    simpl in H1.
  - right. right. repeat split. lia.
  - right. left. repeat split; [eauto|lia].
  - lia.
  - left. repeat split; [lia|auto].
  - lia.
  - lia.
Qed.

Lemma step_keeps_balance (st st' : State) (ev : Event) :
  balanced st -> step st ev = Some st' -> balanced st'.
Proof.
  intros B H.
  destruct (balanced_cases B)
    as [(P & A & Tm & Qe)|[(P & (j & A) & Tm)|(P & A & Tm)]];
    destruct st as [q p aw tm se]; simpl in *; subst;
    destruct ev as [job|k env| |]; simpl in H;
    unfold addJob, resume, timer_fires, processQueue, clearQueue in H;
    simpl in H;
    try (destruct k as [|[|k]]; simpl in H);
    try (destruct q as [|j0 q]; simpl in H);
    try discriminate H; injection H as <-;
    split; simpl; try reflexivity; try discriminate; auto.
Qed.

(** Without [clearQueue], a turn keeps the jobs in line: those served, the
    one rendering, those waiting, then the new one if the turn submits. *)
Lemma step_keeps_order (st st' : State) (ev : Event) :
  balanced st -> step st ev = Some st' -> clears [ev] = false ->
  served st' ++ awaiting st' ++ queue st'
  = (served st ++ awaiting st ++ queue st) ++ submitted [ev].
Proof.
  intros B H C. unfold served.
  destruct (balanced_cases B)
    as [(P & A & Tm & Qe)|[(P & (j & A) & Tm)|(P & A & Tm)]];
    destruct st as [q p aw tm se]; simpl in *; subst;
    destruct ev as [job|k env| |]; simpl in H, C;
    unfold addJob, resume, timer_fires, processQueue, clearQueue in H;
    simpl in H;
    try (destruct k as [|[|k]]; simpl in H);
    try (destruct q as [|j0 q]; simpl in H);
    try discriminate H; try discriminate C; injection H as <-;
    simpl; rewrite ?map_app, ?app_nil_r; simpl;
    rewrite <- ?app_assoc; simpl; reflexivity.
Qed.

Lemma clears_cons (ev : Event) (evs : list Event) :
  clears (ev :: evs) = false -> clears [ev] = false /\ clears evs = false.
Proof.
  unfold clears. simpl. rewrite orb_false_r. apply orb_false_iff.
Qed.

Lemma run_keeps_balance (evs : list Event) :
  forall st st', balanced st -> run st evs = Some st' -> balanced st'.
Proof.
  induction evs as [|ev evs IH]; intros st st' B H; simpl in H.
  - injection H as <-. exact B.
  - destruct (step st ev) as [st1|] eqn:E; [|discriminate H].
    eapply IH; [eapply step_keeps_balance; eauto|exact H].
Qed.

Lemma run_keeps_order (evs : list Event) :
  forall st st', balanced st -> run st evs = Some st' -> clears evs = false ->
    served st' ++ awaiting st' ++ queue st'
    = (served st ++ awaiting st ++ queue st) ++ submitted evs.
Proof.
  induction evs as [|ev evs IH]; intros st st' B H C; simpl in H.
  - injection H as <-. simpl. now rewrite app_nil_r.
  - destruct (step st ev) as [st1|] eqn:E; [|discriminate H].
    apply clears_cons in C. destruct C as (C1 & C2).
    assert (balanced st1) as B1 by (eapply step_keeps_balance; eauto).
    rewrite (IH st1 st' B1 H C2).
    rewrite (@step_keeps_order st st1 ev B E C1).
    assert (submitted (ev :: evs) = submitted [ev] ++ submitted evs) as S
      by (unfold submitted; simpl; now rewrite app_nil_r).
    rewrite S. now rewrite <- !app_assoc.
Qed.

(** Left alone, the queue comes to rest with every job served in line. *)
Lemma drain_finishes (envs : nat -> Env) :
  forall fuel st,
    balanced st -> (turns_left st <= fuel)%nat ->
    quiescent (drain fuel envs st) = true /\
    isProcessing (drain fuel envs st) = false /\
    served (drain fuel envs st) = served st ++ awaiting st ++ queue st.
Proof.
  induction fuel as [|fuel IH]; intros st B F;
    destruct (balanced_cases B)
      as [(P & A & Tm & Qe)|[(P & (j & A) & Tm)|(P & A & Tm)]];
    destruct st as [q p aw tm se]; unfold turns_left, served in *;
    simpl in *; subst; simpl in *; try lia.
  - repeat split. now rewrite app_nil_r.
  - repeat split. now rewrite app_nil_r.
  - unfold resume. simpl.
    match goal with
    | |- context [drain fuel envs ?s] =>
        destruct (IH s) as (I1 & I2 & I3)
    end.
    + split; simpl; [reflexivity|discriminate].
    + unfold turns_left. simpl. lia.
    + split; [exact I1|]. split; [exact I2|].
      rewrite I3. unfold served. simpl. rewrite map_app. simpl.
      now rewrite <- app_assoc.
  - unfold resume, timer_fires, processQueue. simpl.
    destruct q as [|j q]; simpl.
    + match goal with
      | |- context [drain fuel envs ?s] =>
          destruct (IH s) as (I1 & I2 & I3)
      end.
      * split; simpl; reflexivity.
      * unfold turns_left. simpl. lia.
      * split; [exact I1|]. split; [exact I2|]. rewrite I3. reflexivity.
    + match goal with
      | |- context [drain fuel envs ?s] =>
          destruct (IH s) as (I1 & I2 & I3)
      end.
      * split; simpl; [reflexivity|discriminate].
      * unfold turns_left in *. simpl in *. lia.
      * split; [exact I1|]. split; [exact I2|]. rewrite I3. reflexivity.
Qed.

(** C9.  In every state the queue can reach, at most one rendering is
    awaited.  As long as [clearQueue] is not called, the jobs served, the one
    rendering and those waiting are, in this order, the jobs submitted; so
    the callbacks are called in the order of submission, and when the queue
    is at rest every submitted job has been served, in that order.  Left
    alone, the queue does come to rest. *)
Theorem queue_serves_in_order_one_at_a_time :
  forall (evs : list Event) (st : State) (envs : nat -> Env),
    run initial evs = Some st ->
    (List.length (awaiting st) <= 1)%nat /\
    (clears evs = false ->
     served st ++ awaiting st ++ queue st = submitted evs /\
     (quiescent st = true -> served st = submitted evs) /\
     quiescent (drain (turns_left st) envs st) = true /\
     served (drain (turns_left st) envs st) = submitted evs).
Proof.
  intros evs st envs H.
  pose proof (run_keeps_balance evs balanced_initial H) as B.
  split.
  - destruct (balanced_cases B)
      as [(_ & A & _)|[(_ & (j & A) & _)|(_ & A & _)]]; rewrite A; simpl; lia.
  - intro C.
    pose proof (run_keeps_order evs balanced_initial H C) as O.
    simpl in O. split; [exact O|]. split.
    + intro Q. rewrite <- O. unfold quiescent in Q.
      destruct (queue st), (awaiting st), (timers st); try discriminate Q.
      now rewrite !app_nil_r.
    + destruct (drain_finishes envs B (Nat.le_refl (turns_left st)))
        as (D1 & _ & D3).
      split; [exact D1|]. rewrite D3. exact O.
Qed.

Lemma queue_serves_in_order_one_at_a_time_witness :
  let A := Samples.job "A" Samples.verse [Samples.forest] in
  let B := Samples.job "B" [] [Samples.skyline] in
  let C := Samples.job "C" Samples.verse [Samples.forest; Samples.skyline] in
  let e := resolving Samples.noon in
  exists st,
    run initial [Submit A; Submit B; Settle 0 e; TimerFires; Submit C;
                 Settle 0 e; TimerFires; Settle 0 e; TimerFires] = Some st /\
    served st = [A; B; C] /\
    quiescent st = true /\
    (List.length (awaiting st) <= 1)%nat.
Proof.
  intros A B C e. eexists. split; [vm_compute; reflexivity|].
  match goal with
  | |- served ?s = _ /\ _ =>
      destruct (@queue_serves_in_order_one_at_a_time
                  [Submit A; Submit B; Settle 0 e; TimerFires; Submit C;
                   Settle 0 e; TimerFires; Settle 0 e; TimerFires]
                  s (fun _ => e))
        as (One & Rest); [vm_compute; reflexivity|]
  end.
  destruct (Rest eq_refl) as (_ & Q & _).
  split; [apply Q; vm_compute; reflexivity|].
  split; [vm_compute; reflexivity|exact One].
Defined.

(* ================================================================== *)
(** ** A failing job does not stop the queue *)




(* ================================================================== *)
(** ** Keywords *)

Import VisualBackgroundGenerator.

(** *** Lower case *)

Lemma toLowerCase_char_idempotent (c : ascii) :
  lower_char (toLowerCase_char c) = true.
Proof.
  destruct c as [[] [] [] [] [] [] [] []]; reflexivity.
Qed.

Lemma every_toLowerCase (s : string) : every lower_char (toLowerCase s) = true.
Proof.
  induction s as [|c s IH]; simpl; [reflexivity|].
  now rewrite toLowerCase_char_idempotent, IH.
Qed.

Lemma every_replace_punctuation (test : ascii -> bool) (s : string) :
  test " "%char = true -> every test s = true ->
  every test (replace_punctuation s) = true.
Proof.
  intro Sp. induction s as [|c s IH]; simpl; [reflexivity|].
  intro H. apply andb_true_iff in H. destruct H as (Hc & Hs).
  rewrite (IH Hs), andb_true_r.
  destruct (is_word c || is_space c); assumption.
Qed.

Lemma split_spaces_not_nil (s : string) : split_spaces s <> [].
Proof.
  induction s as [|c s IH]; simpl; [discriminate|].
  destruct (is_space c).
  - destruct (starts_with_space s); [exact IH|discriminate].
  - destruct (split_spaces s); discriminate.
Qed.

Lemma every_split_spaces (test : ascii -> bool) (s : string) :
  every test s = true ->
  Forall (fun piece => every test piece = true) (split_spaces s).
Proof.
  induction s as [|c s IH]; simpl; intro H.
  - repeat constructor.
  - apply andb_true_iff in H. destruct H as (Hc & Hs). specialize (IH Hs).
    destruct (is_space c).
    + destruct (starts_with_space s); [exact IH|].
      constructor; [reflexivity|exact IH].
    + destruct (split_spaces s) as [|piece rest].
      * repeat constructor. simpl. now rewrite Hc.
      * inversion IH as [|? ? Hp Hr]; subst.
        constructor; [simpl; now rewrite Hc, Hp|exact Hr].
Qed.

Lemma every_lower_fixed (s : string) :
  every lower_char s = true -> toLowerCase s = s.
Proof.
  induction s as [|c s IH]; simpl; [reflexivity|].
  intro H. apply andb_true_iff in H. destruct H as (Hc & Hs).
  unfold lower_char in Hc. apply Ascii.eqb_eq in Hc.
  now rewrite Hc, (IH Hs).
Qed.

Lemma pieces_lower (T : list TranscriptionResult) (w : string) :
  In w (pieces T) -> toLowerCase w = w.
Proof.
  intro H. apply every_lower_fixed.
  pose proof (every_split_spaces lower_char (replace_punctuation (fullText T)))
    as F.
  rewrite Forall_forall in F. apply F; [|exact H].
  apply every_replace_punctuation; [reflexivity|].
  apply every_toLowerCase.
Qed.

(** *** Counting *)

Lemma bump_keys (w k : string) (m : list (string * nat)) :
  In k (map fst (bump w m)) <-> k = w \/ In k (map fst m).
Proof.
  induction m as [|(k0, c0) m IH]; simpl.
  - intuition congruence.
  - destruct (String.eqb_spec k0 w) as [->|N]; simpl.
    + intuition congruence.
    + rewrite IH. intuition congruence.
Qed.

Lemma bump_keeps_keys_apart (w : string) (m : list (string * nat)) :
  NoDup (map fst m) -> NoDup (map fst (bump w m)).
Proof.
  induction m as [|(k0, c0) m IH]; simpl; intro H.
  - repeat constructor. intros [].
  - inversion H as [|? ? Hn Hd]; subst.
    destruct (String.eqb_spec k0 w) as [->|N]; simpl.
    + constructor; assumption.
    + constructor; [|apply IH; exact Hd].
      rewrite bump_keys. intros [E|I]; [congruence|contradiction].
Qed.

Lemma get_bump (w k : string) (m : list (string * nat)) :
  get_or_0 k (bump w m)
  = if String.eqb w k then S (get_or_0 k m) else get_or_0 k m.
Proof.
  induction m as [|(k0, c0) m IH]; simpl.
  - destruct (String.eqb_spec w k); reflexivity.
  - destruct (String.eqb_spec k0 w) as [->|N]; simpl.
    + destruct (String.eqb_spec w k); reflexivity.
    + destruct (String.eqb_spec k0 k) as [->|N'].
      * destruct (String.eqb_spec w k); [congruence|reflexivity].
      * exact IH.
Qed.

Lemma counted (ws : list string) :
  forall m k,
    get_or_0 k (fold_left (fun m word => bump word m) ws m)
    = (get_or_0 k m + count_occ string_dec ws k)%nat.
Proof.
  induction ws as [|w ws IH]; intros m k; simpl; [lia|].
  rewrite IH, get_bump.
  destruct (string_dec w k) as [->|N].
  - rewrite String.eqb_refl. lia.
  - destruct (String.eqb_spec w k); [congruence|lia].
Qed.

Lemma counted_keys (ws : list string) :
  forall m k,
    In k (map fst (fold_left (fun m word => bump word m) ws m)) ->
    In k (map fst m) \/ In k ws.
Proof.
  induction ws as [|w ws IH]; intros m k H; simpl in *; [auto|].
  destruct (IH _ _ H) as [I|I]; [|auto].
  apply bump_keys in I. destruct I as [->|I]; auto.
Qed.

Lemma counted_keys_apart (ws : list string) :
  forall m, NoDup (map fst m) ->
            NoDup (map fst (fold_left (fun m word => bump word m) ws m)).
Proof.
  induction ws as [|w ws IH]; intros m H; simpl; [exact H|].
  apply IH. apply bump_keeps_keys_apart. exact H.
Qed.

Lemma entry_is_got (m : list (string * nat)) (k : string) (c : nat) :
  NoDup (map fst m) -> In (k, c) m -> get_or_0 k m = c.
Proof.
  induction m as [|(k0, c0) m IH]; simpl; intros H I; [contradiction|].
  inversion H as [|? ? Hn Hd]; subst.
  destruct I as [E|I].
  - injection E as -> ->. now rewrite String.eqb_refl.
  - destruct (String.eqb_spec k0 k) as [->|N]; [|apply IH; assumption].
    exfalso. apply Hn. apply in_map_iff. exists (k, c). auto.
Qed.

Lemma count_occ_filter (p : string -> bool) (l : list string) (w : string) :
  p w = true -> count_occ string_dec (filter p l) w = count_occ string_dec l w.
Proof.
  intro H. induction l as [|x l IH]; simpl; [reflexivity|].
  destruct (p x) eqn:E; simpl.
  - destruct (string_dec x w); now rewrite IH.
  - destruct (string_dec x w) as [->|N]; [congruence|exact IH].
Qed.

(** An entry of the map holds a kept word and how often it occurs. *)
Lemma wordCount_entry (T : list TranscriptionResult) (k : string) (c : nat) :
  In (k, c) (wordCount T) ->
  In k (pieces T) /\ keep k = true /\ c = frequency T k.
Proof.
  intro H. unfold wordCount in *.
  assert (In k (words T)) as W.
  { destruct (counted_keys (words T) [] k) as [[]|I]; [|exact I].
    apply in_map_iff. exists (k, c). auto. }
  unfold words in W. apply filter_In in W. destruct W as (P & K).
  split; [exact P|]. split; [exact K|].
  assert (NoDup (map fst (fold_left (fun m word => bump word m) (words T) [])))
    as D by (apply counted_keys_apart; constructor).
  rewrite <- (@entry_is_got _ k c D H).
  rewrite counted. simpl. unfold frequency, words.
  now rewrite count_occ_filter.
Qed.

(** *** Sorting *)

Lemma insert_entry_perm (a : string * nat) (l : list (string * nat)) :
  Permutation (insert_entry a l) (a :: l).
Proof.
  induction l as [|b l IH]; simpl; [reflexivity|].
  destruct (snd b <=? snd a)%nat; [reflexivity|].
  rewrite IH. apply perm_swap.
Qed.

Lemma sort_entries_perm (l : list (string * nat)) :
  Permutation (sort_entries l) l.
Proof.
  induction l as [|a l IH]; simpl; [reflexivity|].
  rewrite insert_entry_perm. now constructor.
Qed.

Lemma insert_entry_sorted (a : string * nat) (l : list (string * nat)) :
  StronglySorted by_count l -> StronglySorted by_count (insert_entry a l).
Proof.
  induction l as [|b l IH]; simpl; intro H.
  - repeat constructor.
  - inversion H as [|? ? Hs Hf]; subst.
    destruct (Nat.leb_spec (snd b) (snd a)) as [L|L].
    + constructor; [exact H|]. constructor; [exact L|].
      rewrite Forall_forall in *. intros x Hx. specialize (Hf x Hx).
      unfold by_count in *. lia.
    + constructor; [apply IH; exact Hs|].
      rewrite Forall_forall in *. intros x Hx.
      apply (Permutation_in _ (insert_entry_perm a l)) in Hx.
      destruct Hx as [<-|Hx]; [unfold by_count; lia|auto].
Qed.

Lemma sort_entries_sorted (l : list (string * nat)) :
  StronglySorted by_count (sort_entries l).
Proof.
  induction l as [|a l IH]; simpl; [constructor|].
  apply insert_entry_sorted. exact IH.
Qed.

Lemma firstn_sorted (n : nat) (l : list (string * nat)) :
  StronglySorted by_count l -> StronglySorted by_count (firstn n l).
Proof.
  revert n. induction l as [|a l IH]; intros [|n] H; simpl; try constructor.
  - inversion H; subst. apply IH. assumption.
  - inversion H as [|? ? Hs Hf]; subst.
    rewrite Forall_forall in *. intros x Hx. apply Hf.
    apply (In_nth_error) in Hx. destruct Hx as (i & Hx).
    rewrite nth_error_firstn in Hx.
    destruct (i <? n)%nat; [|discriminate Hx].
    eapply nth_error_In; eauto.
Qed.

Lemma sorted_by_position (l : list (string * nat)) :
  StronglySorted by_count l ->
  forall i j a b, (i <= j)%nat ->
    nth_error l i = Some a -> nth_error l j = Some b -> by_count a b.
Proof.
  induction 1 as [|x l Hs IH Hf]; intros i j a b L Ha Hb.
  - destruct i; discriminate Ha.
  - destruct i as [|i], j as [|j]; simpl in *; try lia.
    + injection Ha as <-. injection Hb as <-. unfold by_count. lia.
    + injection Ha as <-. rewrite Forall_forall in Hf. apply Hf.
      eapply nth_error_In; eauto.
    + apply (IH i j); auto. lia.
Qed.

Lemma ranked_entry (T : list TranscriptionResult) (k : string) (c : nat) :
  In (k, c) (firstn 10 (sort_entries (wordCount T))) ->
  In k (pieces T) /\ keep k = true /\ c = frequency T k.
Proof.
  intro H. apply wordCount_entry.
  apply (Permutation_in _ (sort_entries_perm (wordCount T))).
  rewrite <- (firstn_skipn 10). apply in_or_app. left. exact H.
Qed.

Lemma ranked_at (T : list TranscriptionResult) (i : nat) (k : string) :
  nth_error (extractKeywords T) i = Some k ->
  nth_error (firstn 10 (sort_entries (wordCount T))) i
  = Some (k, frequency T k).
Proof.
  unfold extractKeywords. rewrite nth_error_map.
  destruct (nth_error (firstn 10 (sort_entries (wordCount T))) i)
    as [(k', c)|] eqn:E; simpl; [|discriminate].
  intro H. injection H as ->.
  destruct (ranked_entry T k c (nth_error_In _ _ E)) as (_ & _ & ->).
  reflexivity.
Qed.

(** C10.  For every list of spans, [extractKeywords] returns at most ten
    keywords; each one is longer than two characters, is left unchanged by
    [toLowerCase], and is not a stop word; and a keyword never occurs more
    often in the text than a keyword listed before it. *)
Theorem keywords_are_few_clean_and_ranked :
  forall T : list TranscriptionResult,
    (List.length (extractKeywords T) <= 10)%nat /\
    Forall (fun w => (2 < String.length w)%nat /\
                     toLowerCase w = w /\
                     has stopWords w = false)
           (extractKeywords T) /\
    (forall i j a b,
        (i <= j)%nat ->
        nth_error (extractKeywords T) i = Some a ->
        nth_error (extractKeywords T) j = Some b ->
        (frequency T b <= frequency T a)%nat).
Proof.
  intro T. split; [|split].
  - unfold extractKeywords. rewrite length_map. apply firstn_le_length.
  - apply Forall_forall. intros w Hw.
    apply In_nth_error in Hw. destruct Hw as (i & Hi).
    apply ranked_at in Hi. apply nth_error_In in Hi.
    destruct (ranked_entry T _ _ Hi) as (P & K & _).
    unfold keep in K. apply andb_true_iff in K. destruct K as (K1 & K2).
    split; [apply Nat.ltb_lt; exact K1|].
    split; [eapply pieces_lower; eauto|].
    apply negb_true_iff. exact K2.
  - intros i j a b L Ha Hb.
    apply ranked_at in Ha. apply ranked_at in Hb.
    exact (sorted_by_position
             (firstn_sorted 10 (sort_entries_sorted (wordCount T)))
             L Ha Hb).
Qed.

(** The keywords of a small transcript: "forest" occurs three times,
    "city" twice, the others once, in the order of their first occurrence. *)
Example keywords_of_a_chorus :
  extractKeywords
    [Samples.lyric "Walking through the FOREST, the forest!" 0 4;
     Samples.lyric "City lights; are calling" (9 # 2) 12;
     Samples.lyric " forest-dreams of  a city " 12 25]
  = ["forest"; "city"; "walking"; "through"; "lights"; "calling"; "dreams"]%string.
Proof. vm_compute. reflexivity. Qed.

(* ================================================================== *)
(** ** More on the timeline *)

(** Either the transcript has a positive total duration, reached by one of
    its spans, or no span ends after 0 and the loop does not run. *)
Lemma positive_or_no_round (T : list TranscriptionResult) :
  (exists t, totalDuration T = Finite t /\ 0 < t /\
             Exists (fun s => end_ s = t) T) \/
  (rounds (segmentCount T) = 0%nat /\ Forall (fun s => end_ s <= 0) T).
Proof.
  destruct T as [|s T]; [right; split; [reflexivity|constructor]|].
  destruct (totalDuration_cons s T) as (t & Et & Hall & Hex).
  destruct (Qlt_le_dec 0 t) as [P|N]; [left; eauto|right].
  split.
  - unfold segmentCount. rewrite Et. unfold targetSegmentDuration, of_Z.
    rewrite div_finite by discriminate. simpl. rewrite Qceiling_Z.
    assert (t / inject_Z 10 <= 0) as L.
    { apply Qle_shift_div_r; [reflexivity|]. now rewrite Qmult_0_l. }
    apply Qceiling_resp_le in L. change (Qceiling 0) with 0%Z in L. lia.
  - rewrite Forall_forall in *. intros x Hx.
    eapply Qle_trans; [apply Hall; exact Hx|exact N].
Qed.

Lemma segmentCount_of_rounds (T : list TranscriptionResult) :
  (0 < rounds (segmentCount T))%nat ->
  segmentCount T = of_nat (rounds (segmentCount T)).
Proof.
  intro H. destruct (segmentCount_shape T) as [E|(c & E)]; rewrite E in *.
  - simpl in H. lia.
  - unfold of_Z in *. simpl in *. rewrite Qceiling_Z in *.
    unfold of_nat, of_Z. f_equal. f_equal. lia.
Qed.

(** Segment [i] plays the clip at place [i mod n] of the [n] clips. *)
Theorem clips_rotate_over_segments :
  forall (T : list TranscriptionResult) (clips : list BackgroundVideo)
         (sty : VideoStyle) (tl : list TimelineSegment)
         (i : nat) (seg : TimelineSegment),
    buildTimeline T clips sty = Return tl ->
    nth_error tl i = Some seg ->
    nth_error clips (i mod List.length clips) = Some (backgroundVideo seg).
Proof.
  intros T clips sty tl i seg H Hi.
  destruct clips as [|d vids]; [discriminate H|].
  rewrite buildTimeline_segments in H. injection H as <-.
  apply timeline_nth in Hi. destruct Hi as (_ & ->).
  unfold segment_at. cbn [backgroundVideo].
  apply nth_error_nth'. apply Nat.mod_upper_bound. discriminate.
Qed.

Lemma clips_rotate_over_segments_witness :
  exists tl seg,
    buildTimeline Samples.verse [Samples.forest; Samples.skyline]
      (Samples.gold_on_black nature karaoke) = Return tl /\
    nth_error tl 2 = Some seg /\
    backgroundVideo seg = Samples.forest.
Proof.
  assert (exists tl seg,
             buildTimeline Samples.verse [Samples.forest; Samples.skyline]
               (Samples.gold_on_black nature karaoke) = Return tl /\
             nth_error tl 2 = Some seg) as (tl & seg & B & N).
  { eexists. eexists. split; [vm_compute; reflexivity|reflexivity]. }
  exists tl, seg. split; [exact B|]. split; [exact N|].
  pose proof (@clips_rotate_over_segments _ _ _ _ _ _ B N) as H.
  simpl in H. injection H as H. symmetry. exact H.
Defined.





Lemma middle_transitions (i r : nat) (sty : VideoStyle) :
  (0 < i)%nat -> (S i < r)%nat ->
  Some (getTransitionsForSegment i (of_nat r) sty) = transitionMap (theme sty).
Proof.
  intros H0 H1. unfold getTransitionsForSegment.
  assert (strict_eq (of_nat i) (of_Z 0) = false) as E0.
  { unfold of_nat, of_Z. simpl strict_eq.
    destruct (Qeq_bool (inject_Z (Z.of_nat i)) (inject_Z 0)) eqn:E;
      [|reflexivity].
    apply Qeq_bool_iff in E. rewrite inject_Z_injective in E. lia. }
  assert (strict_eq (of_nat i) (sub (of_nat r) (of_Z 1)) = false) as E1.
  { unfold of_nat, of_Z, sub. cbn [neg add]. simpl strict_eq.
    destruct (Qeq_bool (inject_Z (Z.of_nat i))
                (inject_Z (Z.of_nat r) + - inject_Z 1)) eqn:E; [|reflexivity].
    apply Qeq_bool_iff in E.
    change (- inject_Z 1) with (inject_Z (- 1)) in E.
    rewrite <- inject_Z_plus, inject_Z_injective in E. lia. }
  rewrite E0, E1. destruct (theme sty); reflexivity.
Qed.

(** A segment that is neither the first nor the last takes both its
    transitions from the table of the theme: fade for nature and minimal,
    slide for city and colorful, zoom for abstract. *)
Theorem middle_segments_follow_the_theme :
  forall (T : list TranscriptionResult) (clips : list BackgroundVideo)
         (sty : VideoStyle) (tl : list TimelineSegment)
         (i : nat) (seg : TimelineSegment),
    buildTimeline T clips sty = Return tl ->
    nth_error tl i = Some seg ->
    (0 < i)%nat -> (S i < List.length tl)%nat ->
    transitions seg = transitionMap (theme sty) /\
    in_of seg = out_of seg /\
    out_of seg <> Some none.
Proof.
  intros T clips sty tl i seg H Hi H0 H1.
  destruct clips as [|d vids]; [discriminate H|].
  rewrite buildTimeline_segments in H. injection H as <-.
  rewrite length_map, length_seq in H1.
  apply timeline_nth in Hi. destruct Hi as (_ & ->).
  assert (transitions (segment_at T (d :: vids) d sty i)
          = transitionMap (theme sty)) as E.
  { unfold segment_at. cbn [transitions].
    rewrite (segmentCount_of_rounds T) by lia.
    apply middle_transitions; assumption. }
  unfold in_of, out_of. rewrite E.
  split; [reflexivity|]. destruct (theme sty); split; (reflexivity || discriminate).
Qed.

Lemma middle_segments_follow_the_theme_witness :
  exists tl seg,
    buildTimeline Samples.verse [Samples.forest]
      (Samples.gold_on_black abstract karaoke) = Return tl /\
    nth_error tl 1 = Some seg /\
    transitions seg = Some {| t_in := zoom; t_out := zoom |}.
Proof.
  assert (exists tl seg,
             buildTimeline Samples.verse [Samples.forest]
               (Samples.gold_on_black abstract karaoke) = Return tl /\
             nth_error tl 1 = Some seg /\
             (2 < List.length tl)%nat) as (tl & seg & B & N & L).
  { eexists. eexists. split; [vm_compute; reflexivity|].
    split; [reflexivity|simpl; lia]. }
  exists tl, seg. split; [exact B|]. split; [exact N|].
  apply (@middle_segments_follow_the_theme _ _ _ _ _ _ B N); lia.
Defined.



(* ================================================================== *)
(** ** More on one rendering *)

(** In the source every awaited stage resolves.  Then a rendering fails
    exactly when no clip is given, before any stage; with a clip it goes
    through the four stages in order and returns the path of the exported
    file, also for an empty transcript.  A preview is such a rendering and
    its file is an mp4. *)
Theorem rendering_fails_only_without_clips :
  forall (this : Renderer) (clock : Stage -> Z) (audio : AudioFile)
         (T : list TranscriptionResult) (clips : list BackgroundVideo)
         (sty : VideoStyle) (opts : RenderingOptions),
    let r := renderVideo this (resolving clock) audio T clips sty opts in
    (clips = [] ->
     snd r = Throw render_failed /\ awaited (fst r) = []) /\
    (clips <> [] ->
     snd r = Return ("final_video_" ++ decimal (clock ExportVideo) ++ "."
                     ++ format_name (format opts))%string /\
     awaited (fst r)
     = [PrepareVideoLayers; MergeLayers; AddTransitions; ExportVideo] /\
     snd (generatePreview this (resolving clock) audio T clips sty)
     = Return ("final_video_" ++ decimal (clock ExportVideo) ++ ".mp4")%string).
Proof.
  intros this clock audio T clips sty opts r. subst r. split.
  - intros ->. unfold renderVideo, updateProgress.
    destruct (onProgressUpdate_set this); split; reflexivity.
  - intro Hc. destruct (buildTimeline_returns T sty Hc) as (tl & E).
    unfold generatePreview. open_rendering. rewrite E.
    destruct (onProgressUpdate_set this); repeat split.
Qed.

Lemma rendering_fails_only_without_clips_witness :
  snd (renderVideo Samples.with_callback (resolving Samples.noon) Samples.song
         [] [Samples.forest] (Samples.gold_on_black nature karaoke)
         Samples.preview_options)
  = Return "final_video_1700000000000.mp4"%string.
Proof.
  destruct (rendering_fails_only_without_clips Samples.with_callback
              Samples.noon Samples.song [] [Samples.forest]
              (Samples.gold_on_black nature karaoke) Samples.preview_options)
    as (_ & H).
  destruct H as (H & _); [discriminate|].
  rewrite H. vm_compute. reflexivity.
Defined.

(** [updateProgress] hands the callback a percentage brought into
    [[0, 100]]: the given one when it lies there, 0 below, 100 above; stage
    and message go through unchanged.  Without a callback it does nothing. *)
Theorem updateProgress_clamps :
  forall (this : Renderer) (st : ProgressStage) (p : Q) (msg : string),
    if onProgressUpdate_set this then
      exists q,
        updateProgress this st p msg
        = ([Notify {| stage := st; progress := q; message := msg |}],
           Return tt) /\
        in_range q /\
        (in_range p -> q == p) /\
        (p < 0 -> q == 0) /\
        (100 < p -> q == 100)
    else updateProgress this st p msg = ([], Return tt).
Proof.
  intros this st p msg. unfold updateProgress.
  destruct (onProgressUpdate_set this); [|reflexivity].
  exists (Qmin 100 (Qmax 0 p)). split; [reflexivity|].
  assert (0 <= Qmax 0 p) as M0 by apply Q.le_max_l.
  split; [|split; [|split]].
  - split; [apply Q.min_glb; [discriminate|exact M0]|apply Q.le_min_l].
  - intros (L & U). rewrite Q.max_r by exact L. apply Q.min_r. exact U.
  - intro N. rewrite Q.max_l by (apply Qlt_le_weak; exact N).
    apply Q.min_r. discriminate.
  - intro G. rewrite Q.max_r by (apply Qlt_le_weak; eapply Qlt_trans; [|exact G]; reflexivity).
    apply Q.min_l. apply Qlt_le_weak. exact G.
Qed.

Lemma updateProgress_clamps_witness :
  exists q,
    updateProgress Samples.with_callback export 150 "almost done"
    = ([Notify {| stage := export; progress := q;
                  message := "almost done" |}], Return tt) /\
    q == 100.
Proof.
  pose proof (@updateProgress_clamps Samples.with_callback export 150
                "almost done"%string) as H.
  change (onProgressUpdate_set Samples.with_callback) with true in H.
  cbv iota in H. destruct H as (q & E & _ & _ & _ & G).
  exists q. split; [exact E|apply G; reflexivity].
Defined.

(** Whatever the animation type, the animation spans the window of the
    lyric, and its keyframes run from time 0 to time 1, strictly forward,
    with opacities between 0 and 1. *)
Theorem keyframes_run_from_0_to_1 :
  forall (s : TranscriptionResult) (sty : VideoStyle),
    let a := generateTextAnimation s sty in
    anim_duration a = end_ s - start s /\
    anim_startTime a = start s /\
    anim_endTime a = end_ s /\
    hd_error (map time (keyframes a)) = Some 0 /\
    hd_error (rev (map time (keyframes a))) = Some 1 /\
    increasingb (map time (keyframes a)) = true /\
    Forall (fun k => 0 <= opacity k /\ opacity k <= 1) (keyframes a).
Proof.
  intros s sty. unfold generateTextAnimation.
  destruct (animationType sty); cbv zeta;
    cbn [anim_duration anim_startTime anim_endTime keyframes];
    repeat split; try reflexivity;
    repeat constructor; simpl; discriminate.
Qed.

(** Every text animation of a rendering is anchored at the same point,
    whatever its lyric: the horizontal middle of the frame, at a tenth, a
    half or 85 hundredths of its height.  For a frame of non-negative size
    the point lies within the frame. *)
Theorem text_is_anchored_at_one_point :
  forall (T : list TranscriptionResult) (sty : VideoStyle)
         (opts : RenderingOptions) (s : TranscriptionResult),
    let w := width (resolution opts) in
    let h := height (resolution opts) in
    let anchor := calculateTextPosition s sty opts in
    map ta_transcription (prepareTextAnimations T sty opts) = T /\
    Forall (fun ta => position ta = anchor) (prepareTextAnimations T sty opts) /\
    pos_x anchor == w / 2 /\
    (pos_y anchor == h * (1 # 10) \/ pos_y anchor == h * (1 # 2)
     \/ pos_y anchor == h * (85 # 100)) /\
    (0 <= w -> 0 <= h ->
     0 <= pos_x anchor /\ pos_x anchor <= w /\
     0 <= pos_y anchor /\ pos_y anchor <= h).
Proof.
  intros T sty opts s w h anchor. subst anchor w h.
  unfold prepareTextAnimations, calculateTextPosition.
  split; [|split; [|split; [|split]]].
  - rewrite map_map. simpl. apply map_id.
  - apply Forall_forall. intros ta H. apply in_map_iff in H.
    destruct H as (x & <- & _). reflexivity.
  - reflexivity.
  - destruct (textPosition sty); cbn [pos_y];
      [left|right; left|right; right]; lra.
  - intros Hw Hh. cbn [pos_x pos_y].
    set (w := width (resolution opts)) in *.
    set (h := height (resolution opts)) in *.
    assert (w / 2 == w * (1 # 2)) as E by (field).
    rewrite E.
    destruct (textPosition sty); repeat split; lra.
Qed.

Lemma text_is_anchored_at_one_point_witness :
  let anchor := calculateTextPosition (Samples.lyric "forest dreams" 12 25)
                  (Samples.gold_on_black nature karaoke)
                  Samples.preview_options in
  pos_x anchor == 427 /\ pos_y anchor == 408.
Proof.
  destruct (text_is_anchored_at_one_point Samples.verse
              (Samples.gold_on_black nature karaoke) Samples.preview_options
              (Samples.lyric "forest dreams" 12 25))
    as (_ & _ & X & _ & _).
  split; [rewrite X; reflexivity|reflexivity].
Defined.

(* ================================================================== *)
(** ** The estimate of the rendering time *)

Lemma mul_finite (a b : number) :
  is_finite (mul a b) = true -> is_finite a = true /\ is_finite b = true.
Proof.
  destruct a as [| | |x], b as [| | |y]; simpl; try discriminate; auto;
    unfold scaled;
    repeat match goal with
           | |- context [if ?c then _ else _] => destruct c
           end; simpl; discriminate.
Qed.

Lemma add_finite (a b : number) :
  is_finite (add a b) = true -> is_finite a = true /\ is_finite b = true.
Proof.
  destruct a as [| | |x], b as [| | |y]; simpl; try discriminate; auto.
Qed.

Lemma div_by_zero_not_finite (a : number) (z : Q) :
  z == 0 -> is_finite (div a (Finite z)) = false.
Proof.
  intro Z. apply Qeq_bool_iff in Z.
  destruct a as [| | |x]; simpl; try reflexivity.
  - destruct (Qle_bool 0 z); reflexivity.
  - destruct (Qle_bool 0 z); reflexivity.
  - rewrite Z. unfold scaled.
    destruct (Qeq_bool x 0); [reflexivity|].
    destruct (Qle_bool 0 x); reflexivity.
Qed.

Lemma zero_times_not_finite (z : Q) (a : number) :
  z == 0 -> is_finite a = false -> mul (Finite z) a = NaN.
Proof.
  intros Z F. apply Qeq_bool_iff in Z.
  destruct a as [| | |x]; simpl in *; try reflexivity; try discriminate;
    unfold scaled; rewrite Z; reflexivity.
Qed.

(** For a total duration of 0 the estimate is not a number: the count of
    spans is divided by the duration, and 0 times the outcome is NaN. *)
Theorem estimate_for_no_duration_is_NaN :
  forall (t : Q) (T : list TranscriptionResult)
         (vids : list BackgroundVideo) (opts : RenderingOptions),
    t == 0 -> estimateRenderingTime t T vids opts = NaN.
Proof.
  intros t T vids opts Hz. unfold estimateRenderingTime.
  match goal with
  | |- Math_ceil (mul _ ?tps) = _ =>
      assert (is_finite tps = false) as F
  end.
  { match goal with |- ?b = false => destruct b eqn:E; [|reflexivity] end.
    exfalso.
    apply mul_finite in E. destruct E as (E & _).
    apply mul_finite in E. destruct E as (E & _).
    apply mul_finite in E. destruct E as (_ & E).
    apply add_finite in E. destruct E as (_ & E).
    apply mul_finite in E. destruct E as (E & _).
    rewrite (@div_by_zero_not_finite _ _ Hz) in E. discriminate E. }
  rewrite (@zero_times_not_finite _ _ Hz F). reflexivity.
Qed.

Lemma estimate_for_no_duration_is_NaN_witness :
  estimateRenderingTime 0 Samples.verse [Samples.forest]
    Samples.preview_options = NaN.
Proof.
  apply estimate_for_no_duration_is_NaN. reflexivity.
Defined.

Lemma estimate_is_rounded (t : Q) (T : list TranscriptionResult)
    (vids : list BackgroundVideo) (opts : RenderingOptions) :
  0 < t ->
  estimateRenderingTime t T vids opts
  = of_Z (Qceiling (estimate_before_rounding t
                      (width (resolution opts)) (height (resolution opts))
                      (List.length T) (List.length vids) (quality opts))).
Proof.
  intro P. unfold estimateRenderingTime, estimate_before_rounding.
  assert (~ t == 0) as Nt.
  { intro E. rewrite E in P. exact (Qlt_irrefl _ P). }
  assert (~ t / inject_Z 10 == 0) as Nt10.
  { intro E. apply Nt.
    setoid_replace t with (t / inject_Z 10 * inject_Z 10) by (field; discriminate).
    rewrite E. reflexivity. }
  unfold of_nat, of_Z. cbn [mul].
  rewrite (div_finite _ Nt).
  rewrite (@div_finite t (inject_Z 10)) by discriminate.
  rewrite (div_finite _ Nt10).
  rewrite div_finite by (intro E; vm_compute in E; discriminate E).
  reflexivity.
Qed.

Lemma estimate_grows_with_quality (t w h : Q) (spans clips : nat) :
  0 < t -> 0 < w -> 0 < h ->
  0 < estimate_before_rounding t w h spans clips draft /\
  estimate_before_rounding t w h spans clips draft
  <= estimate_before_rounding t w h spans clips preview /\
  estimate_before_rounding t w h spans clips preview
  <= estimate_before_rounding t w h spans clips final.
Proof.
  intros Pt Pw Ph. unfold estimate_before_rounding.
  set (base := inject_Z 2 * (w * h / (inject_Z 1920 * inject_Z 1080))
               * (inject_Z 1 + inject_Z (Z.of_nat spans) / t * (1 # 10))
               * (inject_Z 1
                  + inject_Z (Z.of_nat clips) / (t / inject_Z 10) * (2 # 10))).
  assert (0 <= inject_Z (Z.of_nat spans)) as Ns
    by (change 0 with (inject_Z 0); rewrite <- Zle_Qle; lia).
  assert (0 <= inject_Z (Z.of_nat clips)) as Nc
    by (change 0 with (inject_Z 0); rewrite <- Zle_Qle; lia).
  assert (0 < t / inject_Z 10) as Pt10.
  { apply Qlt_shift_div_l; [reflexivity|]. now rewrite Qmult_0_l. }
  assert (0 <= inject_Z (Z.of_nat spans) / t) as Qs.
  { apply Qle_shift_div_l; [exact Pt|]. now rewrite Qmult_0_l. }
  assert (0 <= inject_Z (Z.of_nat clips) / (t / inject_Z 10)) as Qc.
  { apply Qle_shift_div_l; [exact Pt10|]. now rewrite Qmult_0_l. }
  assert (0 < w * h / (inject_Z 1920 * inject_Z 1080)) as Pr.
  { apply Qlt_shift_div_l; [reflexivity|]. rewrite Qmult_0_l.
    apply Qmult_lt_0_compat; assumption. }
  assert (0 < inject_Z 1 + inject_Z (Z.of_nat spans) / t * (1 # 10)) as PA
    by (change (inject_Z 1) with 1; lra).
  assert (0 < inject_Z 1
              + inject_Z (Z.of_nat clips) / (t / inject_Z 10) * (2 # 10)) as PB
    by (change (inject_Z 1) with 1; lra).
  assert (0 < t * base) as Pb.
  { apply Qmult_lt_0_compat; [exact Pt|]. unfold base.
    apply Qmult_lt_0_compat; [|exact PB].
    apply Qmult_lt_0_compat; [|exact PA].
    apply Qmult_lt_0_compat; [reflexivity|exact Pr]. }
  assert (forall q, t * (base * q) == t * base * q) as A by (intro; ring).
  rewrite !A. simpl qualityMultipliers.
  revert Pb. generalize (t * base). intros x Px. lra.
Qed.



(* ================================================================== *)
(** ** More on the queue *)

(** In every state the queue can reach, [getQueueStatus] counts the jobs not
    yet served, and one more while the timer between two jobs is pending;
    its position is 1 exactly while a rendering is awaited or that timer is
    pending.  The total is 0 exactly when the queue is at rest. *)
Theorem status_counts_jobs_and_the_pending_timer :
  forall (evs : list Event) (st : State),
    run initial evs = Some st ->
    status_total (getQueueStatus st)
    = (List.length (awaiting st) + List.length (queue st) + timers st)%nat /\
    status_position (getQueueStatus st)
    = (List.length (awaiting st) + timers st)%nat /\
    (status_total (getQueueStatus st) = 0%nat <-> quiescent st = true).
Proof.
  intros evs st H.
  pose proof (run_keeps_balance evs balanced_initial H) as B.
  unfold getQueueStatus, quiescent. cbn [status_total status_position].
  destruct (balanced_cases B)
    as [(P & A & Tm & Qe)|[(P & (j & A) & Tm)|(P & A & Tm)]];
    rewrite P, A, Tm; try rewrite Qe; simpl;
    (split; [lia|]); (split; [lia|]);
    destruct (queue st); simpl; split; intro; (lia || discriminate || reflexivity).
Qed.

Lemma status_counts_jobs_and_the_pending_timer_witness :
  let A := Samples.job "A" Samples.verse [Samples.forest] in
  exists st,
    run initial [Submit A; Settle 0 (resolving Samples.noon)] = Some st /\
    served st = [A] /\
    status_total (getQueueStatus st) = 1%nat.
Proof.
  intro A. eexists. split; [vm_compute; reflexivity|].
  split; [vm_compute; reflexivity|].
  match goal with
  | |- status_total (getQueueStatus ?s) = _ =>
      destruct (@status_counts_jobs_and_the_pending_timer
                  [Submit A; Settle 0 (resolving Samples.noon)] s)
        as (E & _); [vm_compute; reflexivity|]
  end.
  rewrite E. reflexivity.
Defined.

Lemma clearQueue_keeps_balance (st : State) :
  balanced st -> balanced (clearQueue st).
Proof.
  intros (H1 & H2). split; simpl; auto.
Qed.

(** [clearQueue] forgets the waiting jobs for good: whatever happens next,
    the jobs served are those served before, the one that was rendering, and
    jobs submitted afterwards.  The callbacks of a forgotten job are never
    called. *)
Theorem cleared_jobs_are_never_served :
  forall (evs evs' : list Event) (st st' : State) (envs : nat -> Env),
    run initial evs = Some st ->
    run (clearQueue st) evs' = Some st' ->
    clears evs' = false ->
    served st' ++ awaiting st' ++ queue st'
    = served st ++ awaiting st ++ submitted evs' /\
    served (drain (turns_left st') envs st')
    = served st ++ awaiting st ++ submitted evs'.
Proof.
  intros evs evs' st st' envs H H' C.
  pose proof (run_keeps_balance evs balanced_initial H) as B.
  pose proof (clearQueue_keeps_balance B) as Bc.
  pose proof (run_keeps_order evs' Bc H' C) as O.
  simpl in O. rewrite app_nil_r, <- app_assoc in O.
  split; [exact O|].
  pose proof (run_keeps_balance evs' Bc H') as B'.
  destruct (drain_finishes envs B' (Nat.le_refl (turns_left st')))
    as (_ & _ & D).
  rewrite D. exact O.
Qed.

Lemma cleared_jobs_are_never_served_witness :
  let A := Samples.job "A" Samples.verse [Samples.forest] in
  let B := Samples.job "B" Samples.verse [Samples.skyline] in
  let C := Samples.job "C" [] [Samples.forest] in
  let e := resolving Samples.noon in
  exists st st',
    run initial [Submit A; Submit B] = Some st /\
    run (clearQueue st) [Settle 0 e; Submit C; TimerFires; Settle 0 e]
    = Some st' /\
    served st' = [A; C].
Proof.
  intros A B C e. eexists. eexists.
  split; [vm_compute; reflexivity|].
  split; [vm_compute; reflexivity|].
  match goal with
  | |- served ?s' = _ =>
      destruct (@cleared_jobs_are_never_served
                  [Submit A; Submit B]
                  [Settle 0 e; Submit C; TimerFires; Settle 0 e]
                  (addJob B (addJob A initial)) s' (fun _ => e))
        as (O & _);
        [vm_compute; reflexivity|vm_compute; reflexivity|reflexivity|]
  end.
  vm_compute. reflexivity.
Defined.

(** A rendering starts in two places only.  A job submitted to an idle queue
    starts at once, while one submitted to a busy queue waits behind the
    others.  When a rendering settles nothing starts in that turn, even with
    jobs waiting: one timer is set, and when it fires the head of the queue
    starts, or the queue turns idle if no job waits. *)
Theorem jobs_start_on_submission_or_on_the_timer :
  forall (evs : list Event) (st : State),
    run initial evs = Some st ->
    (forall job,
        if isProcessing st
        then awaiting (addJob job st) = awaiting st /\
             queue (addJob job st) = queue st ++ [job]
        else awaiting (addJob job st) = [job] /\
             queue (addJob job st) = [] /\
             isProcessing (addJob job st) = true) /\
    (forall k env st1,
        resume k env st = Some st1 ->
        awaiting st1 = [] /\ timers st1 = 1%nat /\ queue st1 = queue st /\
        exists st2,
          timer_fires st1 = Some st2 /\
          timers st2 = 0%nat /\
          awaiting st2 = firstn 1 (queue st) /\
          queue st2 = skipn 1 (queue st) /\
          isProcessing st2 = negb (Nat.eqb (List.length (queue st)) 0)).
Proof.
  intros evs st H.
  pose proof (run_keeps_balance evs balanced_initial H) as B.
  destruct (balanced_cases B)
    as [(P & A & Tm & Qe)|[(P & (j & A) & Tm)|(P & A & Tm)]];
    destruct st as [q p aw tm se]; simpl in *; subst; split.
  - intro job. repeat split.
  - intros k env st1 R. unfold resume in R. simpl in R.
    destruct k; discriminate R.
  - intro job. split; reflexivity.
  - intros k env st1 R. unfold resume in R. simpl in R.
    destruct k as [|[|k]]; simpl in R; try discriminate R.
    injection R as <-. simpl. repeat split.
    unfold timer_fires, processQueue. simpl.
    destruct q as [|j0 q]; eexists; repeat split.
  - intro job. split; reflexivity.
  - intros k env st1 R. unfold resume in R. simpl in R.
    destruct k; discriminate R.
Qed.

Lemma jobs_start_on_submission_or_on_the_timer_witness :
  let A := Samples.job "A" Samples.verse [Samples.forest] in
  let B := Samples.job "B" Samples.verse [Samples.skyline] in
  awaiting (addJob B (addJob A initial)) = [A] /\
  queue (addJob B (addJob A initial)) = [B].
Proof.
  intros A B.
  destruct (@jobs_start_on_submission_or_on_the_timer [Submit A]
              (addJob A initial) eq_refl) as (S & _).
  specialize (S B). simpl in S. exact S.
Defined.

(* ================================================================== *)
(** ** More on the keywords *)

Lemma every_both (a b d : ascii -> bool) (s : string) :
  (forall c, a c = true -> b c = true -> d c = true) ->
  every a s = true -> every b s = true -> every d s = true.
Proof.
  intro H. induction s as [|c s IH]; simpl; [reflexivity|].
  intros Ha Hb. apply andb_true_iff in Ha, Hb.
  destruct Ha as (Ha & Ha'), Hb as (Hb & Hb').
  now rewrite (H c Ha Hb), (IH Ha' Hb').
Qed.

Lemma pieces_hold_no_space (s : string) :
  Forall (fun piece => every (fun c => negb (is_space c)) piece = true)
         (split_spaces s).
Proof.
  induction s as [|c s IH]; simpl.
  - repeat constructor.
  - destruct (is_space c) eqn:E.
    + destruct (starts_with_space s); [exact IH|].
      constructor; [reflexivity|exact IH].
    + destruct (split_spaces s) as [|piece rest].
      * repeat constructor. simpl. now rewrite E.
      * inversion IH as [|? ? Hp Hr]; subst.
        constructor; [simpl; now rewrite E, Hp|exact Hr].
Qed.

Lemma lowered_and_blanked (s : string) :
  every (fun c => (is_word c || is_space c) && lower_char c)
        (replace_punctuation (toLowerCase s)) = true.
Proof.
  induction s as [|c s IH]; simpl; [reflexivity|].
  rewrite IH, andb_true_r.
  destruct (is_word (toLowerCase_char c) || is_space (toLowerCase_char c))
    eqn:E.
  - now rewrite E, toLowerCase_char_idempotent.
  - reflexivity.
Qed.

Lemma word_characters (c : ascii) :
  (is_word c || is_space c) && lower_char c = true ->
  negb (is_space c) = true -> keyword_char c = true.
Proof.
  destruct c as [[] [] [] [] [] [] [] []]; vm_compute; intros; congruence.
Qed.

Lemma sorted_app (l1 l2 : list (string * nat)) :
  StronglySorted by_count (l1 ++ l2) ->
  forall x y, In x l1 -> In y l2 -> by_count x y.
Proof.
  induction l1 as [|a l1 IH]; simpl; intros H x y Hx Hy; [contradiction|].
  inversion H as [|? ? Hs Hf]; subst.
  destruct Hx as [<-|Hx]; [|eapply IH; eauto].
  rewrite Forall_forall in Hf. apply Hf. apply in_or_app. right. exact Hy.
Qed.

Lemma counted_keys_all (ws : list string) :
  forall m k,
    In k ws \/ In k (map fst m) ->
    In k (map fst (fold_left (fun m word => bump word m) ws m)).
Proof.
  induction ws as [|w ws IH]; intros m k H; simpl.
  - destruct H as [[]|H]. exact H.
  - apply IH. destruct H as [[<-|H]|H].
    + right. apply bump_keys. left. reflexivity.
    + left. exact H.
    + right. apply bump_keys. right. exact H.
Qed.

Lemma kept_word_is_counted (T : list TranscriptionResult) (w : string) :
  In w (pieces T) -> keep w = true -> In (w, frequency T w) (wordCount T).
Proof.
  intros P K.
  assert (In w (map fst (wordCount T))) as H.
  { apply counted_keys_all. left. apply filter_In. auto. }
  apply in_map_iff in H. destruct H as ((w', c) & E & H). simpl in E. subst w'.
  destruct (wordCount_entry T _ _ H) as (_ & _ & ->). exact H.
Qed.

(** The keywords are pairwise different; each one occurs in the text and is
    made of lower-case letters, digits and underscores only. *)
Theorem keywords_are_distinct_words_of_the_text :
  forall T : list TranscriptionResult,
    NoDup (extractKeywords T) /\
    Forall (fun w => (1 <= frequency T w)%nat /\ every keyword_char w = true)
           (extractKeywords T).
Proof.
  intro T. split.
  - unfold extractKeywords. rewrite <- firstn_map.
    assert (NoDup (map fst (sort_entries (wordCount T)))) as D.
    { eapply Permutation_NoDup.
      - apply Permutation_map. symmetry. apply sort_entries_perm.
      - unfold wordCount. apply counted_keys_apart. constructor. }
    rewrite <- (firstn_skipn 10 (map fst (sort_entries (wordCount T)))) in D.
    eapply NoDup_app_remove_r. exact D.
  - apply Forall_forall. intros w Hw.
    apply In_nth_error in Hw. destruct Hw as (i & Hi).
    apply ranked_at in Hi. apply nth_error_In in Hi.
    destruct (ranked_entry T _ _ Hi) as (P & _ & _).
    split.
    + unfold frequency. apply (count_occ_In string_dec). exact P.
    + unfold pieces in P.
      pose proof (every_split_spaces _ _ (lowered_and_blanked
                    (String.concat " " (map text T)))) as F1.
      pose proof (pieces_hold_no_space
                    (replace_punctuation (fullText T))) as F2.
      rewrite Forall_forall in F1, F2.
      eapply every_both; [exact word_characters|apply F1|apply F2]; exact P.
Qed.

(** The keywords are the most frequent words: a word of the text that is
    long enough and not a stop word is a keyword, unless ten keywords are
    returned and each of them occurs at least as often. *)
Theorem keywords_are_the_most_frequent_words :
  forall (T : list TranscriptionResult) (w : string),
    In w (pieces T) -> keep w = true ->
    In w (extractKeywords T) \/
    (List.length (extractKeywords T) = 10%nat /\
     forall k, In k (extractKeywords T) ->
               (frequency T w <= frequency T k)%nat).
Proof.
  intros T w P K.
  pose proof (kept_word_is_counted T w P K) as H.
  apply (Permutation_in _ (Permutation_sym (sort_entries_perm (wordCount T))))
    in H.
  pose proof (sort_entries_sorted (wordCount T)) as S.
  rewrite <- (firstn_skipn 10 (sort_entries (wordCount T))) in H, S.
  apply in_app_or in H. destruct H as [H|H].
  - left. unfold extractKeywords.
    apply in_map_iff. exists (w, frequency T w). auto.
  - right. split.
    + unfold extractKeywords. rewrite length_map, length_firstn.
      assert (10 < List.length (sort_entries (wordCount T)))%nat; [|lia].
      destruct (Nat.lt_ge_cases 10
                  (List.length (sort_entries (wordCount T)))) as [L|L];
        [exact L|].
      rewrite skipn_all2 in H by exact L. destruct H.
    + intros k Hk. unfold extractKeywords in Hk.
      apply in_map_iff in Hk. destruct Hk as ((k', c) & E & Hk).
      simpl in E. subst k'.
      destruct (ranked_entry T _ _ Hk) as (_ & _ & ->).
      exact (sorted_app _ _ S _ _ Hk H).
Qed.

Lemma keywords_are_the_most_frequent_words_witness :
  In "forest"%string
     (extractKeywords
        [Samples.lyric "Walking through the FOREST" 0 4;
         Samples.lyric "the forest dreams" 4 8]).
Proof.
  destruct (keywords_are_the_most_frequent_words
              [Samples.lyric "Walking through the FOREST" 0 4;
               Samples.lyric "the forest dreams" 4 8] "forest")
    as [H|(L & _)].
  - vm_compute. tauto.
  - reflexivity.
  - exact H.
  - vm_compute in L. discriminate L.
Defined.

(* ================================================================== *)
(** ** Search terms and stock footage *)

Lemma modifiers_are_five (th : Theme) :
  exists m1 m2 m3 m4 m5, themeModifiers th = Some [m1; m2; m3; m4; m5].
Proof. destruct th; repeat eexists. Qed.

(** The first three search terms: the first keyword alone and with the first
    two modifiers of the theme, or the first three modifiers when there is
    no keyword. *)
Lemma first_three_terms (keywords : list string) (th : Theme) :
  exists t1 t2 t3,
    firstn 3 (combineKeywordsWithTheme keywords th) = [t1; t2; t3] /\
    firstn 3 (combineKeywordsWithTheme keywords th)
    = firstn 3 (combineKeywordsWithTheme (firstn 1 keywords) th).
Proof.
  destruct keywords as [|k ks]; destruct th; repeat eexists.
Qed.

(** Every keyword gives six search terms, itself and one with each of the
    five modifiers of the theme, and the five modifiers come last; but only
    the first three terms are searched, so beyond the first keyword the
    keywords have no effect on the stock footage. *)
Theorem stock_footage_follows_the_first_keyword_only :
  forall (this : Generator) (sv : Services) (keywords : list string)
         (sty : VideoStyle),
    List.length (combineKeywordsWithTheme keywords (theme sty))
    = (6 * List.length keywords + 5)%nat /\
    generateStockFootage this sv keywords sty
    = generateStockFootage this sv (firstn 1 keywords) sty.
Proof.
  intros this sv keywords sty. split.
  - unfold combineKeywordsWithTheme.
    destruct (modifiers_are_five (theme sty)) as (m1 & m2 & m3 & m4 & m5 & ->).
    rewrite length_app. simpl List.length at 2.
    induction keywords as [|k ks IH]; [reflexivity|].
    cbn [flat_map]. rewrite length_app. simpl List.length at 1.
    change (List.length (k :: ks)) with (S (List.length ks)). lia.
  - unfold generateStockFootage.
    destruct (first_three_terms keywords (theme sty)) as (t1 & t2 & t3 & _ & E).
    now rewrite E.
Qed.

Lemma search_adds_tagged_videos (this : Generator) (sv : Services)
    (P : BackgroundVideo -> Prop) (acc : list BackgroundVideo) (term : string) :
  (forall v, source v = stock -> keywords v = [term] -> P v) ->
  Forall P acc -> Forall P (search_term this sv acc term).
Proof.
  intros HP Hacc.
  assert (Forall P (searchPexelsVideos this sv term)) as Px.
  { unfold searchPexelsVideos.
    destruct (negb (truthy (pexelsApiKey this)));
      [|destruct (pexels_videos sv term)];
      apply Forall_forall; intros v Hv;
      try (apply in_map_iff in Hv; destruct Hv as (x & <- & _));
      try (destruct Hv as [<-|[]]); apply HP; reflexivity. }
  assert (Forall P (searchUnsplashImages this sv term)) as Ux.
  { unfold searchUnsplashImages.
    destruct (negb (truthy (unsplashApiKey this)));
      [|destruct (unsplash_results sv term)];
      apply Forall_forall; intros v Hv;
      try (apply in_map_iff in Hv; destruct Hv as (x & <- & _));
      try (destruct Hv as [<-|[]]); apply HP; reflexivity. }
  unfold search_term.
  destruct (List.length (acc ++ searchPexelsVideos this sv term) <? 2)%nat;
    repeat (apply Forall_app; split); assumption.
Qed.

(** Whatever the services answer, the stock footage holds at most five
    videos; each is marked as stock and carries as its only keyword one of
    the first three search terms. *)
Theorem stock_footage_is_bounded_and_tagged :
  forall (this : Generator) (sv : Services) (keywords : list string)
         (sty : VideoStyle),
    (List.length (generateStockFootage this sv keywords sty) <= 5)%nat /\
    Forall (fun v =>
              source v = stock /\
              exists term,
                In term (firstn 3 (combineKeywordsWithTheme keywords (theme sty)))
                /\ Types.keywords v = [term])
           (generateStockFootage this sv keywords sty).
Proof.
  intros this sv keywords sty. split; [apply firstn_le_length|].
  unfold generateStockFootage.
  set (P := fun v =>
              source v = stock /\
              exists term,
                In term (firstn 3 (combineKeywordsWithTheme keywords (theme sty)))
                /\ Types.keywords v = [term]).
  assert (forall terms acc,
             incl terms (firstn 3 (combineKeywordsWithTheme keywords (theme sty))) ->
             Forall P acc ->
             Forall P (fold_left (search_term this sv) terms acc)) as F.
  { induction terms as [|t terms IH]; intros acc Hi Ha; [exact Ha|].
    simpl. apply IH; [intros x Hx; apply Hi; right; exact Hx|].
    apply search_adds_tagged_videos; [|exact Ha].
    intros v Hs Hk. split; [exact Hs|]. exists t.
    split; [apply Hi; left; reflexivity|exact Hk]. }
  specialize (F _ [] (incl_refl _) (Forall_nil _)).
  rewrite Forall_forall in *. intros v Hv. apply F.
  rewrite <- (firstn_skipn 5). apply in_or_app. left. exact Hv.
Qed.

(** Without the keys of Pexels and Unsplash the stock footage is made of
    four stand-ins, whatever the lyrics: for the first term one of each
    kind, for the second and the third one of the first kind.  The services
    are not asked. *)
Theorem stock_footage_without_keys_is_four_stand_ins :
  forall (this : Generator) (sv : Services) (keywords : list string)
         (sty : VideoStyle),
    pexelsApiKey this = ""%string -> unsplashApiKey this = ""%string ->
    exists t1 t2 t3,
      firstn 3 (combineKeywordsWithTheme keywords (theme sty)) = [t1; t2; t3] /\
      generateStockFootage this sv keywords sty
      = getMockPexelsVideos t1 ++ getMockUnsplashVideos t1
        ++ getMockPexelsVideos t2 ++ getMockPexelsVideos t3.
Proof.
  intros this sv keywords sty Kp Ku.
  destruct (first_three_terms keywords (theme sty)) as (t1 & t2 & t3 & E & _).
  exists t1, t2, t3. split; [exact E|].
  unfold generateStockFootage. rewrite E.
  unfold search_term, searchPexelsVideos, searchUnsplashImages.
  simpl. rewrite Kp, Ku. reflexivity.
Qed.

Lemma stock_footage_without_keys_is_four_stand_ins_witness :
  List.length
    (generateStockFootage
       {| pexelsApiKey := ""; unsplashApiKey := ""; runwayApiKey := "";
          stabilityApiKey := "" |}
       {| pexels_videos := fun _ => None; unsplash_results := fun _ => None;
          runway_task := fun _ => None; stability_image := fun _ => None;
          stability_now := fun _ => 0%Z |}
       ["forest"%string] (Samples.gold_on_black nature karaoke)) = 4%nat.
Proof.
  destruct (@stock_footage_without_keys_is_four_stand_ins
              {| pexelsApiKey := ""; unsplashApiKey := ""; runwayApiKey := "";
                 stabilityApiKey := "" |}
              {| pexels_videos := fun _ => None; unsplash_results := fun _ => None;
                 runway_task := fun _ => None; stability_image := fun _ => None;
                 stability_now := fun _ => 0%Z |}
              ["forest"%string] (Samples.gold_on_black nature karaoke)
              eq_refl eq_refl) as (t1 & t2 & t3 & _ & E).
  rewrite E. reflexivity.
Defined.

(** With both keys set, answers that list nothing leave the stock approach
    with no clip at all: the fallback videos are not used, and the timeline
    cannot be built from what [generateBackgroundVisuals] returns. *)
Theorem empty_answers_leave_no_clip :
  forall (this : Generator) (sv : Services) (T : list TranscriptionResult)
         (sty : VideoStyle),
    truthy (pexelsApiKey this) = true ->
    truthy (unsplashApiKey this) = true ->
    (forall q, pexels_videos sv q = Some []) ->
    (forall q, unsplash_results sv q = Some []) ->
    generateBackgroundVisuals this sv T sty use_stock = [] /\
    VideoRenderingModule.buildTimeline T
      (generateBackgroundVisuals this sv T sty use_stock) sty
    = Throw VideoRenderingModule.no_background_videos.
Proof.
  intros this sv T sty Kp Ku Ap Au.
  assert (generateBackgroundVisuals this sv T sty use_stock = []) as E.
  { unfold generateBackgroundVisuals, generateStockFootage.
    destruct (first_three_terms (extractKeywords T) (theme sty))
      as (t1 & t2 & t3 & E & _).
    rewrite E. unfold search_term, searchPexelsVideos, searchUnsplashImages.
    simpl. rewrite Kp, Ku, !Ap, !Au. reflexivity. }
  split; [exact E|]. rewrite E. reflexivity.
Qed.

Lemma empty_answers_leave_no_clip_witness :
  generateBackgroundVisuals
    {| pexelsApiKey := "demo-key"; unsplashApiKey := "demo-key";
       runwayApiKey := "demo-key"; stabilityApiKey := "demo-key" |}
    {| pexels_videos := fun _ => Some []; unsplash_results := fun _ => Some [];
       runway_task := fun _ => None; stability_image := fun _ => None;
       stability_now := fun _ => 0%Z |}
    Samples.verse (Samples.gold_on_black nature karaoke) use_stock = [].
Proof.
  apply empty_answers_leave_no_clip; reflexivity.
Defined.

(* ================================================================== *)
(** ** Generated visuals *)

Lemma fallback_is_one_or_two (sty : VideoStyle) :
  (1 <= List.length (getFallbackVideos sty) <= 2)%nat.
Proof.
  unfold getFallbackVideos. destruct (theme sty); simpl; lia.
Qed.

Lemma push_adds_at_most_one (acc : list BackgroundVideo)
    (v : option BackgroundVideo) :
  (List.length acc <= List.length (push_if_any acc v) <= S (List.length acc))%nat.
Proof.
  destruct v; simpl; rewrite ?length_app; simpl; lia.
Qed.

Lemma one_more_at_most (this : Generator) (sv : Services)
    (acc : list BackgroundVideo) (prompt : string) :
  (List.length acc <= List.length (generate_for this sv acc prompt)
   <= S (List.length acc))%nat.
Proof.
  unfold generate_for.
  set (acc1 := if truthy (runwayApiKey this)
               then push_if_any acc (generateWithRunwayML sv prompt)
               else acc).
  assert (List.length acc <= List.length acc1 <= S (List.length acc))%nat as H1.
  { subst acc1. destruct (truthy (runwayApiKey this));
      [apply push_adds_at_most_one|lia]. }
  destruct (Nat.eqb_spec (List.length acc1) 0) as [Z|NZ]; simpl; [|exact H1].
  destruct (truthy (stabilityApiKey this)); [|exact H1].
  pose proof (push_adds_at_most_one acc1
                (generateWithStableDiffusion sv prompt)). lia.
Qed.

Lemma generated_at_most (this : Generator) (sv : Services)
    (prompts : list string) :
  forall acc,
    (List.length (fold_left (generate_for this sv) prompts acc)
     <= List.length acc + List.length prompts)%nat.
Proof.
  induction prompts as [|p prompts IH]; intro acc; simpl; [lia|].
  specialize (IH (generate_for this sv acc p)).
  pose proof (one_more_at_most this sv acc p). lia.
Qed.

(** The generated visuals are never empty and never more than three: when
    the services give nothing, the one or two fallback videos of the theme
    are returned.  So the timeline can always be built from them. *)
Theorem generated_visuals_are_one_to_three :
  forall (this : Generator) (sv : Services) (keywords : list string)
         (sty : VideoStyle) (T : list TranscriptionResult),
    (1 <= List.length (generateAIVisuals this sv keywords sty T) <= 3)%nat /\
    exists tl,
      VideoRenderingModule.buildTimeline T
        (generateAIVisuals this sv keywords sty T) sty
      = Return tl.
Proof.
  intros this sv keywords sty T.
  assert (1 <= List.length (generateAIVisuals this sv keywords sty T) <= 3)%nat
    as L.
  { unfold generateAIVisuals.
    destruct (Nat.ltb_spec 0
                (List.length
                   (fold_left (generate_for this sv)
                      (firstn 3 (createAIPrompts keywords sty T)) []))) as [P|P].
    - split; [lia|].
      pose proof (generated_at_most this sv
                    (firstn 3 (createAIPrompts keywords sty T)) []) as G.
      pose proof (firstn_le_length 3 (createAIPrompts keywords sty T)).
      cbn [List.length Nat.add] in G. lia.
    - pose proof (fallback_is_one_or_two sty). lia. }
  split; [exact L|].
  apply buildTimeline_returns. intro E. rewrite E in L. simpl in L. lia.
Qed.

Lemma nothing_generated (this : Generator) (sv : Services)
    (prompts : list string) :
  (truthy (runwayApiKey this) = false /\ truthy (stabilityApiKey this) = false)
  \/ (forall p, runway_task sv p = None /\ stability_image sv p = None) ->
  fold_left (generate_for this sv) prompts [] = [].
Proof.
  intro H. induction prompts as [|p prompts IH]; [reflexivity|].
  simpl. replace (generate_for this sv [] p) with (@nil BackgroundVideo);
    [exact IH|].
  unfold generate_for, generateWithRunwayML, generateWithStableDiffusion.
  destruct H as [(Kr & Ks)|H].
  - rewrite Kr, Ks. reflexivity.
  - destruct (H p) as (-> & ->).
    destruct (truthy (runwayApiKey this)), (truthy (stabilityApiKey this));
      reflexivity.
Qed.

(** The fallback videos of the theme are what the generated approach
    returns when there is no keyword, when neither the key of Runway nor the
    key of Stability is set, or when both services fail on every prompt. *)
Theorem generated_visuals_fall_back :
  forall (this : Generator) (sv : Services) (keywords : list string)
         (sty : VideoStyle) (T : list TranscriptionResult),
    keywords = [] \/
    (truthy (runwayApiKey this) = false /\
     truthy (stabilityApiKey this) = false) \/
    (forall p, runway_task sv p = None /\ stability_image sv p = None) ->
    generateAIVisuals this sv keywords sty T = getFallbackVideos sty.
Proof.
  intros this sv keywords sty T H. unfold generateAIVisuals.
  destruct H as [->|H]; [reflexivity|].
  now rewrite (nothing_generated this sv _ H).
Qed.

Lemma generated_visuals_fall_back_witness :
  List.length
    (generateAIVisuals
       {| pexelsApiKey := ""; unsplashApiKey := ""; runwayApiKey := "";
          stabilityApiKey := "" |}
       {| pexels_videos := fun _ => None; unsplash_results := fun _ => None;
          runway_task := fun _ => Some "42"%string;
          stability_image := fun _ => None; stability_now := fun _ => 0%Z |}
       ["forest"%string] (Samples.gold_on_black nature karaoke) Samples.verse)
  = 2%nat.
Proof.
  rewrite generated_visuals_fall_back; [reflexivity|].
  right. left. split; reflexivity.
Defined.

(* ================================================================== *)
(** ** The emotion of the lyrics *)

(** [detectEmotion] answers one of its four emotions, so the description
    used in a prompt is never the spare "atmospheric".  The answer is "calm"
    when no word of any list occurs in the text; otherwise it is an emotion
    whose list has the most words in the text, no other list having more. *)
Theorem detected_emotion_is_the_best_scored :
  forall T : list TranscriptionResult,
    let words_in := toLowerCase (String.concat " " (map text T)) in
    let e := detectEmotion T in
    In e (map fst emotionWords) /\
    getEmotionDescription e <> "atmospheric"%string /\
    ((forall entry, In entry emotionWords -> score words_in (snd entry) = 0%nat)
     -> e = "calm"%string) /\
    ((exists entry, In entry emotionWords /\
                    (0 < score words_in (snd entry))%nat) ->
     exists ws, In (e, ws) emotionWords /\
                forall entry, In entry emotionWords ->
                  (score words_in (snd entry) <= score words_in ws)%nat).
Proof.
  intros T words_in e. subst e. unfold detectEmotion. fold words_in.
  unfold emotionWords. cbn [fold_left map fst snd]. unfold weigh.
  cbn [fst snd].
  set (s1 := score words_in ("happy"%string :: _)).
  set (s2 := score words_in ("sad"%string :: _)).
  set (s3 := score words_in ("peace"%string :: _)).
  set (s4 := score words_in ("energy"%string :: _)).
  assert ((forall entry,
              In entry
                 [("happy", ["happy"; "joy"; "love"; "smile"; "laugh";
                             "celebrate"; "bright"; "shine"]);
                  ("sad", ["sad"; "cry"; "tears"; "lonely"; "miss"; "lost";
                           "dark"; "pain"]);
                  ("calm", ["peace"; "calm"; "quiet"; "soft"; "gentle";
                            "serene"; "still"]);
                  ("energetic", ["energy"; "dance"; "jump"; "fast"; "move";
                                 "power"; "strong"])]%string ->
              score words_in (snd entry) = 0%nat) ->
          s1 = 0 /\ s2 = 0 /\ s3 = 0 /\ s4 = 0)%nat as AllZero.
  { intro Z0. split; [|split; [|split]].
    - exact (Z0 _ (or_introl eq_refl)).
    - exact (Z0 _ (or_intror (or_introl eq_refl))).
    - exact (Z0 _ (or_intror (or_intror (or_introl eq_refl)))).
    - exact (Z0 _ (or_intror (or_intror (or_intror (or_introl eq_refl))))). }
  assert ((exists entry,
              In entry
                 [("happy", ["happy"; "joy"; "love"; "smile"; "laugh";
                             "celebrate"; "bright"; "shine"]);
                  ("sad", ["sad"; "cry"; "tears"; "lonely"; "miss"; "lost";
                           "dark"; "pain"]);
                  ("calm", ["peace"; "calm"; "quiet"; "soft"; "gentle";
                            "serene"; "still"]);
                  ("energetic", ["energy"; "dance"; "jump"; "fast"; "move";
                                 "power"; "strong"])]%string /\
              (0 < score words_in (snd entry))%nat) ->
          0 < s1 \/ 0 < s2 \/ 0 < s3 \/ 0 < s4)%nat as SomePos.
  { intros (entry & [<-|[<-|[<-|[<-|[]]]]] & P); cbn [snd] in P; tauto. }
  destruct (Nat.ltb_spec 0 s1) as [A1|A1]; cbn [fst snd];
    [destruct (Nat.ltb_spec s1 s2) as [A2|A2]
    |destruct (Nat.ltb_spec 0 s2) as [A2|A2]]; cbn [fst snd];
    match goal with
    | |- context [(?a <? s3)%nat] =>
        destruct (Nat.ltb_spec a s3); cbn [fst snd]
    end;
    match goal with
    | |- context [(?a <? s4)%nat] =>
        destruct (Nat.ltb_spec a s4); cbn [fst snd]
    end;
    (split;
     [cbn [In];
      first [ left; reflexivity
            | right; left; reflexivity
            | right; right; left; reflexivity
            | right; right; right; left; reflexivity ]
     |]);
    (split; [vm_compute; discriminate|]);
    (split;
     [intro Z0; try reflexivity; exfalso;
      destruct (AllZero Z0) as (? & ? & ? & ?); lia
     |]);
    intro SP; apply SomePos in SP;
    try (exfalso; lia);
    eexists;
    (split;
     [first [ left; reflexivity
            | right; left; reflexivity
            | right; right; left; reflexivity
            | right; right; right; left; reflexivity ]
     |]);
    intros entry [<-|[<-|[<-|[<-|[]]]]]; cbn [snd];
    fold s1 s2 s3 s4; lia.
Qed.

Lemma detected_emotion_is_the_best_scored_witness :
  exists ws,
    In (detectEmotion
          [Samples.lyric "Tears of joy" 0 2; Samples.lyric "and PAIN" 2 4], ws)
       emotionWords.
Proof.
  destruct (@detected_emotion_is_the_best_scored
              [Samples.lyric "Tears of joy" 0 2; Samples.lyric "and PAIN" 2 4])
    as (_ & _ & _ & H).
  destruct H as (ws & I & _); [|exists ws; exact I].
  exists (nth 1 emotionWords (EmptyString, [])).
  split; [right; left; reflexivity|vm_compute; repeat constructor].
Defined.

(** A text that sings of tears and pain, and of joy once. *)
Example sad_lyrics :
  detectEmotion
    [Samples.lyric "Tears of joy" 0 2; Samples.lyric "and PAIN" 2 4]
  = "sad"%string.
Proof. vm_compute. reflexivity. Qed.

(* ================================================================== *)
(** ** One slot per clip *)

Lemma mapi_from_nth {A B : Type} (f : nat -> A -> B) (l : list A) :
  forall k i,
    nth_error (mapi_from f k l) i = option_map (f (k + i)%nat) (nth_error l i).
Proof.
  induction l as [|x l IH]; intros k i; simpl.
  - destruct i; reflexivity.
  - destruct i as [|i]; simpl.
    + now rewrite Nat.add_0_r.
    + rewrite IH. now rewrite Nat.add_succ_r.
Qed.

Lemma slots_of_some_clips (vids : list BackgroundVideo)
    (T : list TranscriptionResult) :
  vids <> [] ->
  selectVideosForSegments vids T
  = mapi_from (slot_at (VideoRenderingModule.totalDuration T) (List.length vids))
              0 vids.
Proof.
  destruct vids; [congruence|reflexivity].
Qed.



(** Without a clip there is no slot, and no error.  With clips but an empty
    transcript there is one slot per clip and none has usable times: every
    slot ends at [-Infinity], the first starts at NaN and the others at
    [-Infinity]. *)
Theorem slots_of_an_empty_transcript_have_no_times :
  forall (vids : list BackgroundVideo) (T : list TranscriptionResult),
    selectVideosForSegments [] T = [] /\
    List.length (selectVideosForSegments vids []) = List.length vids /\
    forall i slot,
      nth_error (selectVideosForSegments vids []) i = Some slot ->
      slot_endTime slot = NegInfinity /\
      slot_startTime slot
      = match i with O => NaN | S _ => NegInfinity end.
Proof.
  intros vids T. split; [reflexivity|].
  destruct vids as [|v0 vids'];
    [split; [reflexivity|intros [|i] s H; discriminate H]|].
  rewrite slots_of_some_clips by discriminate.
  set (vids := v0 :: vids'). split.
  - generalize (slot_at (VideoRenderingModule.totalDuration [])
                        (List.length vids)).
    generalize 0%nat. generalize vids.
    induction vids0 as [|x l IH]; intros k f; simpl; [reflexivity|].
    now rewrite IH.
  - intros i slot H. rewrite mapi_from_nth in H. simpl Nat.add in H.
    destruct (nth_error vids i) as [v|]; [|discriminate H].
    cbn [option_map] in H. injection H as <-. unfold slot_at.
    cbn [slot_endTime slot_startTime].
    change (VideoRenderingModule.totalDuration []) with NegInfinity.
    assert (div NegInfinity (of_nat (List.length vids)) = NegInfinity) as D.
    { unfold of_nat, of_Z. cbn [div].
      assert (Qle_bool 0 (inject_Z (Z.of_nat (List.length vids))) = true) as P1.
      { apply Qle_bool_iff. change 0 with (inject_Z 0).
        rewrite <- Zle_Qle. lia. }
      now rewrite P1. }
    change (S (List.length vids')) with (List.length vids). rewrite D.
    assert (forall k, mul (of_nat (S k)) NegInfinity = NegInfinity) as M.
    { intro k. unfold of_nat, of_Z. cbn [mul]. unfold scaled.
      assert (Qeq_bool (inject_Z (Z.of_nat (S k))) 0 = false) as P2.
      { destruct (Qeq_bool (inject_Z (Z.of_nat (S k))) 0) eqn:E; [|reflexivity].
        apply Qeq_bool_iff in E. change 0 with (inject_Z 0) in E.
        rewrite inject_Z_injective in E. lia. }
      assert (Qle_bool 0 (inject_Z (Z.of_nat (S k))) = true) as P3.
      { apply Qle_bool_iff. change 0 with (inject_Z 0).
        rewrite <- Zle_Qle. lia. }
      now rewrite P2, P3. }
    rewrite Nat.add_1_r, M. split; [reflexivity|].
    destruct i as [|i]; [reflexivity|apply M].
Qed.

Lemma slots_of_an_empty_transcript_have_no_times_witness :
  exists slot,
    nth_error (selectVideosForSegments [Samples.forest; Samples.skyline] []) 1
    = Some slot /\
    slot_startTime slot = NegInfinity /\ slot_endTime slot = NegInfinity.
Proof.
  assert (exists slot,
             nth_error (selectVideosForSegments
                          [Samples.forest; Samples.skyline] []) 1
             = Some slot) as (slot & N).
  { eexists. reflexivity. }
  exists slot. split; [exact N|].
  destruct (@slots_of_an_empty_transcript_have_no_times
              [Samples.forest; Samples.skyline] []) as (_ & _ & H).
  destruct (H 1%nat slot N) as (E & S1). split; assumption.
Defined.
